(** * The theme provider of TODO-APP-RN (src/hooks/useTheme.tsx)

    A shallow embedding of the colour schemes, of the [ThemeProvider]
    component with its persisted dark-mode preference, of the [useTheme]
    accessor and of the [TodoInput] component that uses it
    (src/components/TodoInput.tsx), followed by their properties. *)

From stdpp Require Import gmap strings list fin_maps.
From Stdlib Require Import Ascii String Bool Arith Lia.

Local Open Scope string_scope.
Local Open Scope list_scope.

(** ** Object literals and the [ColorScheme] interface *)

(** The values that occur in a colour scheme: a string, or a two-element
    array of strings (a gradient). *)
Inductive Leaf : Type :=
  | Str (s : string)
  | Pair (a b : string).

(** A property of the scheme object is a leaf or a nested object literal
    whose own properties are leaves ([gradients], [backgrounds]). *)
Inductive Value : Type :=
  | Atom (l : Leaf)
  | Obj (fields : list (string * Leaf)).

(** An object literal: its properties in source order. *)
Definition JsObject : Type := list (string * Value).

(** Types of the interface declaration. *)
Inductive LeafTy : Type :=
  | TString
  | TStringPair
  | TLiteral (alternatives : list string).

Inductive FieldTy : Type :=
  | TAtom (t : LeafTy)
  | TObject (fields : list (string * LeafTy)).

(** [export interface ColorScheme { ... }] (lines 16-43). *)
Definition ColorScheme : list (string * FieldTy) :=
  [ ("bg", TAtom TString);
    ("surface", TAtom TString);
    ("text", TAtom TString);
    ("textMuted", TAtom TString);
    ("border", TAtom TString);
    ("primary", TAtom TString);
    ("success", TAtom TString);
    ("warning", TAtom TString);
    ("danger", TAtom TString);
    ("shadow", TAtom TString);
    ("gradients", TObject
       [ ("background", TStringPair);
         ("surface", TStringPair);
         ("primary", TStringPair);
         ("success", TStringPair);
         ("warning", TStringPair);
         ("danger", TStringPair);
         ("muted", TStringPair);
         ("empty", TStringPair) ]);
    ("backgrounds", TObject
       [ ("input", TString);
         ("editInput", TString) ]);
    ("statusBarStyle", TAtom (TLiteral ["light-content"; "dark-content"])) ].

(** [const lightColors: ColorScheme = { ... }] (lines 47-75). *)
Definition lightColors : JsObject :=
  [ ("bg", Atom (Str "#f8fafc"));
    ("surface", Atom (Str "#ffffff"));
    ("text", Atom (Str "#1e293b"));
    ("textMuted", Atom (Str "#64748b"));
    ("border", Atom (Str "#e2e8f0"));
    ("primary", Atom (Str "#3b82f6"));
    ("success", Atom (Str "#10b981"));
    ("warning", Atom (Str "#f59e0b"));
    ("danger", Atom (Str "#ef4444"));
    ("shadow", Atom (Str "#000000"));
    ("gradients", Obj
       [ ("background", Pair "#f8fafc" "#e2e8f0");
         ("surface", Pair "#ffffff" "#f8fafc");
         ("primary", Pair "#3b82f6" "#1d4ed8");
         ("success", Pair "#10b981" "#059669");
         ("warning", Pair "#f59e0b" "#d97706");
         ("danger", Pair "#ef4444" "#dc2626");
         ("muted", Pair "#9ca3af" "#6b7280");
         ("empty", Pair "#f3f4f6" "#e5e7eb") ]);
    ("backgrounds", Obj
       [ ("input", Str "#ffffff");
         ("editInput", Str "#ffffff") ]);
    ("statusBarStyle", Atom (Str "dark-content")) ].

(** [const darkColors: ColorScheme = { ... }] (lines 78-104). *)
Definition darkColors : JsObject :=
  [ ("bg", Atom (Str "#0f172a"));
    ("surface", Atom (Str "#1e293b"));
    ("text", Atom (Str "#f1f5f9"));
    ("textMuted", Atom (Str "#94a3b8"));
    ("border", Atom (Str "#334155"));
    ("primary", Atom (Str "#60a5fa"));
    ("success", Atom (Str "#34d399"));
    ("warning", Atom (Str "#fbbf24"));
    ("danger", Atom (Str "#f87171"));
    ("shadow", Atom (Str "#000000"));
    ("gradients", Obj
       [ ("background", Pair "#0f172a" "#1e293b");
         ("surface", Pair "#1e293b" "#334155");
         ("primary", Pair "#3b82f6" "#1d4ed8");
         ("success", Pair "#10b981" "#059669");
         ("warning", Pair "#f59e0b" "#d97706");
         ("danger", Pair "#ef4444" "#dc2626");
         ("muted", Pair "#374151" "#4b5563");
         ("empty", Pair "#374151" "#4b5563") ]);
    ("backgrounds", Obj
       [ ("input", Str "#1e293b");
         ("editInput", Str "#0f172a") ]);
    ("statusBarStyle", Atom (Str "light-content")) ].

(** Property access [o.k]: the last binding of [k] wins in an object
    literal; the literals above bind every name once. *)
Fixpoint get {A : Type} (k : string) (o : list (string * A)) : option A :=
  match o with
  | [] => None
  | (k', v) :: rest =>
      match get k rest with
      | Some v' => Some v'
      | None => if String.eqb k k' then Some v else None
      end
  end.

(** Nested access [o.k1.k2]. *)
Definition get2 (k1 k2 : string) (o : JsObject) : option Leaf :=
  match get k1 o with
  | Some (Obj fields) => get k2 fields
  | _ => None
  end.

(** The keys an object exposes, nested ones as paths: [Object.keys] applied
    at both levels. *)
Definition key_paths (o : JsObject) : list (list string) :=
  flat_map
    (fun kv : string * Value =>
       match snd kv with
       | Atom _ => [[fst kv]]
       | Obj fields => [fst kv] :: map (fun kl : string * Leaf => [fst kv; fst kl]) fields
       end)
    o.

(** The keys an interface declares, in the same form. *)
Definition declared_paths (i : list (string * FieldTy)) : list (list string) :=
  flat_map
    (fun kt : string * FieldTy =>
       match snd kt with
       | TAtom _ => [[fst kt]]
       | TObject fields => [fst kt] :: map (fun kl : string * LeafTy => [fst kt; fst kl]) fields
       end)
    i.

Definition nonempty (s : string) : bool := negb (String.eqb s "").

(** A leaf is populated when every string in it is non-empty. *)
Definition leaf_populated (l : Leaf) : bool :=
  match l with
  | Str s => nonempty s
  | Pair a b => nonempty a && nonempty b
  end.

Definition populated (o : JsObject) : bool :=
  forallb
    (fun kv : string * Value =>
       match snd kv with
       | Atom l => leaf_populated l
       | Obj fields => forallb (fun kl : string * Leaf => leaf_populated (snd kl)) fields
       end)
    o.

(** Type checking of an object literal against an interface, as the
    annotation [: ColorScheme] demands: every declared property is there
    with a value of its type, and the literal has no other property. *)
Definition leaf_has_type (l : Leaf) (t : LeafTy) : bool :=
  match t, l with
  | TString, Str _ => true
  | TStringPair, Pair _ _ => true
  | TLiteral alts, Str s => existsb (String.eqb s) alts
  | _, _ => false
  end.

Definition fields_have_type (fields : list (string * Leaf)) (ts : list (string * LeafTy)) : bool :=
  forallb
    (fun kt : string * LeafTy =>
       match get (fst kt) fields with
       | Some l => leaf_has_type l (snd kt)
       | None => false
       end)
    ts
  && forallb
       (fun kl : string * Leaf =>
          match get (fst kl) ts with Some _ => true | None => false end)
       fields.

Definition has_type (o : JsObject) (i : list (string * FieldTy)) : bool :=
  forallb
    (fun kt : string * FieldTy =>
       match get (fst kt) o, snd kt with
       | Some (Atom l), TAtom t => leaf_has_type l t
       | Some (Obj fields), TObject ts => fields_have_type fields ts
       | _, _ => false
       end)
    i
  && forallb
       (fun kv : string * Value =>
          match get (fst kv) i with Some _ => true | None => false end)
       o.

(** [statusBarStyle] of a scheme. *)
Definition statusBarStyle (o : JsObject) : option Value := get "statusBarStyle" o.

(** ** JSON *)

(** [JSON.stringify(newMode)] for the boolean [newMode]. *)
Definition JSON_stringify (b : bool) : string := if b then "true" else "false".

(** What [JSON.parse] makes of a text, as far as the provider can tell:
    a boolean; a value of another type, of which conditions and [!] see
    only whether it is truthy; or a SyntaxError. *)
Inductive Parsed : Type :=
  | PBool (b : bool)
  | POther (truthy : bool)
  | PSyntaxError.

(** The character has code [n]. *)
Definition has_code (n : nat) (c : ascii) : bool := Nat.eqb (nat_of_ascii c) n.

(** JSON white space: space, tab, line feed, carriage return. *)
Definition is_json_ws (c : ascii) : bool :=
  let n := nat_of_ascii c in
  Nat.eqb n 32 || Nat.eqb n 9 || Nat.eqb n 10 || Nat.eqb n 13.

(** Drop the white space a text starts with. *)
Fixpoint skip_ws (s : string) : string :=
  match s with
  | String c rest => if is_json_ws c then skip_ws rest else s
  | EmptyString => EmptyString
  end.

Definition is_digit (c : ascii) : bool :=
  Nat.leb 48 (nat_of_ascii c) && Nat.leb (nat_of_ascii c) 57.

Definition is_hex (c : ascii) : bool :=
  is_digit c
  || (Nat.leb 65 (nat_of_ascii c) && Nat.leb (nat_of_ascii c) 70)
  || (Nat.leb 97 (nat_of_ascii c) && Nat.leb (nat_of_ascii c) 102).

(** The characters that may follow a backslash, [u] apart:
    quote, backslash, slash, b, f, n, r, t. *)
Definition is_escape (c : ascii) : bool :=
  existsb (Nat.eqb (nat_of_ascii c)) [34; 92; 47; 98; 102; 110; 114; 116].

(** [s] without the prefix [p], when it starts with it. *)
Fixpoint strip_prefix (p s : string) : option string :=
  match p with
  | EmptyString => Some s
  | String a p' =>
      match s with
      | String b s' => if Ascii.eqb a b then strip_prefix p' s' else None
      | EmptyString => None
      end
  end.

(** The longest run of digits a text starts with, and the rest. *)
Fixpoint take_digits (s : string) : list Z * string :=
  match s with
  | String c rest =>
      if is_digit c
      then (Z.of_nat (nat_of_ascii c - 48) :: fst (take_digits rest), snd (take_digits rest))
      else ([], s)
  | EmptyString => ([], EmptyString)
  end.

Definition digits_value (ds : list Z) : Z :=
  fold_left (fun acc d => 10 * acc + d)%Z ds 0%Z.

(** Whether the number [m * 10^e], [m] written with the digits [ds], is
    truthy, that is, not zero once rounded to a double: it is zero when
    [m] is, and when it does not exceed [2^-1075], half the least positive
    double (to nearest, ties to even). *)
Definition number_truthy (ds : list Z) (e : Z) : bool :=
  let m := digits_value ds in
  ((0 <? m) && ((0 <=? e) || (10 ^ (- e) <? m * 2 ^ 1075)))%Z.

(** An exponent part, if there is one: [e] or [E], a sign, digits. *)
Definition parse_exponent (s : string) : option (Z * string) :=
  match s with
  | String c rest =>
      if has_code 101 c || has_code 69 c then
        let '(negative, digits) :=
          match rest with
          | String d rest' =>
              if has_code 45 d then (true, rest')
              else if has_code 43 d then (false, rest')
              else (false, rest)
          | EmptyString => (false, rest)
          end in
        match take_digits digits with
        | ([], _) => None
        | (ds, r) => Some ((if negative then - digits_value ds else digits_value ds)%Z, r)
        end
      else Some (0%Z, s)
  | EmptyString => Some (0%Z, s)
  end.

(** A fraction part, if there is one: a point and at least one digit. *)
Definition parse_fraction (s : string) : option (list Z * string) :=
  match s with
  | String c rest =>
      if has_code 46 c then
        match take_digits rest with
        | ([], _) => None
        | (ds, r) => Some (ds, r)
        end
      else Some ([], s)
  | EmptyString => Some ([], s)
  end.

(** A number: an optional minus, [0] or a run of digits that does not
    start with [0], a fraction, an exponent. The result is whether the
    number is truthy. *)
Definition parse_number (s : string) : option (bool * string) :=
  let unsigned :=
    match s with
    | String c rest => if has_code 45 c then rest else s
    | EmptyString => s
    end in
  match unsigned with
  | String c rest =>
      if is_digit c then
        let '(int, s1) := if has_code 48 c then ([0%Z], rest) else take_digits unsigned in
        match parse_fraction s1 with
        | Some (frac, s2) =>
            match parse_exponent s2 with
            | Some (e, s3) =>
                Some (number_truthy (int ++ frac) (e - Z.of_nat (List.length frac)), s3)
            | None => None
            end
        | None => None
        end
      else None
  | EmptyString => None
  end.

(** The rest of a string after its opening quote, up to the closing one;
    [seen] tells whether the string has a character so far. *)
Fixpoint parse_string (s : string) (seen : bool) : option (bool * string) :=
  match s with
  | EmptyString => None
  | String c rest =>
      if has_code 34 c then Some (seen, rest)
      else if has_code 92 c then
        match rest with
        | String d rest' =>
            if is_escape d then parse_string rest' true
            else if has_code 117 d then
              match rest' with
              | String h1 (String h2 (String h3 (String h4 r))) =>
                  if is_hex h1 && is_hex h2 && is_hex h3 && is_hex h4
                  then parse_string r true
                  else None
              | _ => None
              end
            else None
        | EmptyString => None
        end
      else if Nat.ltb (nat_of_ascii c) 32 then None
      else parse_string rest true
  end.

(** A JSON value at the start of a text, and the rest of the text. Every
    call consumes a character before the next one, so a fuel of twice the
    length of the text is never used up. *)
Fixpoint parse_value (fuel : nat) (s : string) {struct fuel} : option (Parsed * string) :=
  match fuel with
  | 0 => None
  | S f =>
      match s with
      | EmptyString => None
      | String c rest =>
          if has_code 34 c then
            match parse_string rest false with
            | Some (seen, r) => Some (POther seen, r)
            | None => None
            end
          else if has_code 91 c then
            match skip_ws rest with
            | String c' r => if has_code 93 c' then Some (POther true, r)
                             else parse_elements f (skip_ws rest)
            | EmptyString => None
            end
          else if has_code 123 c then
            match skip_ws rest with
            | String c' r => if has_code 125 c' then Some (POther true, r)
                             else parse_members f (skip_ws rest)
            | EmptyString => None
            end
          else
            match strip_prefix "true" s with
            | Some r => Some (PBool true, r)
            | None =>
                match strip_prefix "false" s with
                | Some r => Some (PBool false, r)
                | None =>
                    match strip_prefix "null" s with
                    | Some r => Some (POther false, r)
                    | None =>
                        match parse_number s with
                        | Some (truthy, r) => Some (POther truthy, r)
                        | None => None
                        end
                    end
                end
            end
      end
  end
with parse_elements (fuel : nat) (s : string) {struct fuel} : option (Parsed * string) :=
  match fuel with
  | 0 => None
  | S f =>
      match parse_value f s with
      | Some (_, r) =>
          match skip_ws r with
          | String c r' =>
              if has_code 44 c then parse_elements f (skip_ws r')
              else if has_code 93 c then Some (POther true, r')
              else None
          | EmptyString => None
          end
      | None => None
      end
  end
with parse_members (fuel : nat) (s : string) {struct fuel} : option (Parsed * string) :=
  match fuel with
  | 0 => None
  | S f =>
      match s with
      | String q key =>
          if has_code 34 q then
            match parse_string key false with
            | Some (_, r) =>
                match skip_ws r with
                | String c r' =>
                    if has_code 58 c then
                      match parse_value f (skip_ws r') with
                      | Some (_, r'') =>
                          match skip_ws r'' with
                          | String d r''' =>
                              if has_code 44 d then parse_members f (skip_ws r''')
                              else if has_code 125 d then Some (POther true, r''')
                              else None
                          | EmptyString => None
                          end
                      | None => None
                      end
                    else None
                | EmptyString => None
                end
            | None => None
            end
          else None
      | EmptyString => None
      end
  end.

(** [JSON.parse(text)]: one value between optional white space. *)
Definition JSON_parse (text : string) : Parsed :=
  match parse_value (2 * String.length text + 2) (skip_ws text) with
  | Some (value, rest) =>
      match skip_ws rest with
      | EmptyString => value
      | String _ _ => PSyntaxError
      end
  | None => PSyntaxError
  end.

(** ** AsyncStorage and the provider's state *)

(** A request handed to AsyncStorage that has not settled yet. *)
Inductive StorageOp : Type :=
  | GetItem (key : string)
  | SetItem (key value : string).

(** Everything the provider reads or writes: the cell of
    [useState(false)], the device storage, the requests in flight (oldest
    first; the storage layer serves them in the order they were issued),
    and the number of promises that have rejected without the code having
    attached a handler (it attaches none anywhere): the one [.then]
    returns at start-up, which nobody holds, and those [toggleDarkMode]
    returns to its callers. *)
Record World : Type := mkWorld {
  state : bool;
  storage : gmap string string;
  inflight : list StorageOp;
  unhandled : nat
}.

(** [setIsDarkMode(v)]. React queues the update and the next render reads
    [v]; only renders read the cell, so it is set here at once. *)
Definition setIsDarkMode (v : bool) (w : World) : World :=
  mkWorld v (storage w) (inflight w) (unhandled w).

(** [AsyncStorage.getItem(key)] and [AsyncStorage.setItem(key, value)]
    only issue the request; the promise settles later. *)
Definition AsyncStorage_getItem (key : string) (w : World) : World :=
  mkWorld (state w) (storage w) (inflight w ++ [GetItem key]) (unhandled w).

Definition AsyncStorage_setItem (key value : string) (w : World) : World :=
  mkWorld (state w) (storage w) (inflight w ++ [SetItem key value]) (unhandled w).

(** [const toggleDarkMode = async () => { ... }] (lines 147-155), as a
    closure over the [isDarkMode] of the render that created it. Nothing
    follows the [await], so the call is over once the write is issued. *)
Definition toggleDarkMode (isDarkMode : bool) (w : World) : World :=
  let newMode := negb isDarkMode in
  AsyncStorage_setItem "darkMode" (JSON_stringify newMode) (setIsDarkMode newMode w).

(** [interface ThemeContextType] (lines 108-112). *)
Module ThemeContextType.
Record t : Type := mk {
  isDarkMode : bool;
  toggleDarkMode : World -> World;
  colors : JsObject
}.
End ThemeContextType.

(** One render of [ThemeProvider] (lines 124-169): the object it passes as
    [value] to [ThemeContext.Provider]. *)
Definition ThemeProvider (w : World) : ThemeContextType.t :=
  let isDarkMode := state w in
  let colors := if isDarkMode then darkColors else lightColors in
  ThemeContextType.mk isDarkMode (toggleDarkMode isDarkMode) colors.

(** The first render and the effect that runs once after it: the cell
    holds [false] and the read of ["darkMode"] is issued. *)
Definition mount (disk : gmap string string) : World :=
  AsyncStorage_getItem "darkMode" (mkWorld false disk [] 0).


(** A promise rejects and no handler is attached. *)
Definition reject (w : World) : World :=
  mkWorld (state w) (storage w) (inflight w) (S (unhandled w)).

(** The callback given to [.then] (lines 135-142), run with the value the
    read resolved to ([None] is [null]). Whatever [JSON.parse] returns is
    handed to [setIsDarkMode]; the cell is kept at its declared type
    [boolean], so of a value of another type it holds the truthiness,
    which is all that [!isDarkMode] and [isDarkMode ? ... : ...] read.
    When [JSON.parse] throws, the promise of [.then] rejects, the flag
    stays and no handler is there. *)
Definition onStoredValue (value : option string) (w : World) : World :=
  match value with
  | Some v =>
      if nonempty v then
        match JSON_parse v with
        | PBool b => setIsDarkMode b w
        | POther truthy => setIsDarkMode truthy w
        | PSyntaxError => reject w
        end
      else w
  | None => w
  end.

(** The oldest request in flight settles, successfully ([ok]) or not. A
    read resolves to the stored value and runs the [.then] callback; a
    failed read skips it. A write stores its value; a failed write stores
    nothing and rejects the promise of the toggle that awaited it. *)
Definition settle (ok : bool) (w : World) : option World :=
  match inflight w with
  | [] => Some w
  | op :: rest =>
      let w' := mkWorld (state w) (storage w) rest (unhandled w) in
      match op with
      | GetItem key =>
          if ok then Some (onStoredValue (storage w !! key) w') else Some (reject w')
      | SetItem key value =>
          if ok then Some (mkWorld (state w) (<[key := value]> (storage w)) rest (unhandled w))
          else Some (reject w')
      end
  end.

(** What can happen to a mounted provider. [Press]: a consumer calls the
    [toggleDarkMode] of the value published for the present state.
    [Invoke c]: a consumer calls a [toggleDarkMode] it got from a render
    whose [isDarkMode] was [c]. [Settle ok]: the oldest request settles. *)
Inductive Event : Type :=
  | Press
  | Invoke (captured : bool)
  | Settle (ok : bool).

(** One event. *)
Definition step (e : Event) (w : World) : option World :=
  match e with
  | Press => Some (ThemeContextType.toggleDarkMode (ThemeProvider w) w)
  | Invoke c => Some (toggleDarkMode c w)
  | Settle ok => settle ok w
  end.

(** A trace of events, from left to right. *)
Fixpoint run (evs : list Event) (w : World) : option World :=
  match evs with
  | [] => Some w
  | e :: rest =>
      match step e w with
      | Some w' => run rest w'
      | None => None
      end
  end.

(** The promises [toggleDarkMode] has returned to its callers whose write
    has settled, oldest first: [true] for fulfilled, [false] for rejected.
    The function is [async], awaits the write and catches nothing (lines
    147-155), so its promise settles as the write does; writes are served
    in the order of the calls. [track] adds the promise an event settles. *)
Definition track (e : Event) (w : World) (outcomes : list bool) : list bool :=
  match e, inflight w with
  | Settle ok, SetItem _ _ :: _ => outcomes ++ [ok]
  | _, _ => outcomes
  end.

Fixpoint promises (evs : list Event) (w : World) (outcomes : list bool) : list bool :=
  match evs with
  | [] => outcomes
  | e :: rest =>
      match step e w with
      | Some w' => promises rest w' (track e w outcomes)
      | None => track e w outcomes
      end
  end.

(** ** Context lookup and [useTheme] *)

(** The values of the enclosing [ThemeContext.Provider] elements, innermost
    first. [ThemeContext] is private to the module, so only [ThemeProvider]
    provides it. *)
Definition Scope : Type := list ThemeContextType.t.

(** The scope in which [ThemeProvider] renders its [children]. *)
Definition children_scope (w : World) (outer : Scope) : Scope :=
  ThemeProvider w :: outer.

(** [useContext(ThemeContext)]: the innermost provided value, or the
    default [undefined] of [createContext] (line 118), here [None]. *)
Definition useContext (scope : Scope) : option ThemeContextType.t := head scope.

(** How a call ends: with a value, or with [throw new Error(message)]. *)
Inductive Completion (A : Type) : Type :=
  | Return (a : A)
  | Throw (message : string).
Arguments Return {A} a.
Arguments Throw {A} message.

(** [const useTheme = () => { ... }] (lines 173-183). *)
Definition useTheme (scope : Scope) : Completion ThemeContextType.t :=
  match useContext scope with
  | None => Throw "useTheme must be used within a ThemeProvider"
  | Some context => Return context
  end.

(** ** Vocabulary of the properties *)

(** The request names ["darkMode"], and a write carries ["true"] or
    ["false"]. *)
Definition uses_fixed_key (op : StorageOp) : bool :=
  match op with
  | GetItem key => String.eqb key "darkMode"
  | SetItem key value =>
      String.eqb key "darkMode" && (String.eqb value "true" || String.eqb value "false")
  end.

(** Nothing stored, or one of the two serialized booleans. *)
Definition serialized_boolean (stored : option string) : bool :=
  match stored with
  | None => true
  | Some v => String.eqb v "true" || String.eqb v "false"
  end.

(** What every state reached from a mount over [disk] satisfies. *)
Definition key_inv (disk : gmap string string) (w : World) : Prop :=
  forallb uses_fixed_key (inflight w) = true
  ∧ (∀ k : string, k ≠ "darkMode" → storage w !! k = disk !! k)
  ∧ serialized_boolean (storage w !! "darkMode") = true.





(** The write a toggle issues for the new mode [b]. *)
Definition write_of (b : bool) : StorageOp := SetItem "darkMode" (JSON_stringify b).


(** The request is a write. *)
Definition is_write (op : StorageOp) : bool :=
  match op with SetItem _ _ => true | GetItem _ => false end.

(** ** The input component (src/components/TodoInput.tsx) *)

(** A JavaScript string, as the text of a [TextInput] is: its UTF-16 code
    units. *)
Definition JsString : Type := list N.

(** The code units [String.prototype.trim] strips: ECMAScript's WhiteSpace
    (tab, vertical tab, form feed, space, no-break space, the other space
    separators, the byte order mark) and LineTerminator (line feed,
    carriage return, line and paragraph separator). *)
Definition is_js_ws (u : N) : bool :=
  ((u =? 9) || (u =? 10) || (u =? 11) || (u =? 12) || (u =? 13) || (u =? 32)
   || (u =? 160) || (u =? 5760) || ((8192 <=? u) && (u <=? 8202))
   || (u =? 8232) || (u =? 8233) || (u =? 8239) || (u =? 8287)
   || (u =? 12288) || (u =? 65279))%N.

(** Drop the white space a text starts with. *)
Fixpoint skip_js_ws (s : JsString) : JsString :=
  match s with
  | u :: rest => if is_js_ws u then skip_js_ws rest else s
  | [] => []
  end.

(** [s.trim()]. *)
Definition trim (s : JsString) : JsString :=
  rev (skip_js_ws (rev (skip_js_ws s))).

(** A string in a condition: true unless empty. *)
Definition truthy (s : JsString) : bool :=
  match s with [] => false | _ :: _ => true end.

(** The state of one [TodoInput]: the cell of [useState("")] (line 13) and
    how often the mutation obtained from [useMutation(api.todos.addTodo)]
    (line 14) has been called. *)
Record TodoInputState : Type := mkTodoInput {
  newTodo : JsString;
  addTodo_calls : nat
}.

(** The state of a [TodoInput] that has just been mounted. *)
Definition TodoInput_mount : TodoInputState := mkTodoInput [] 0.

(** [setNewTodo(text)], the [onChangeText] of the input. *)
Definition setNewTodo (text : JsString) (s : TodoInputState) : TodoInputState :=
  mkTodoInput text (addTodo_calls s).

(** [const handleAddTodo = async () => { }] (line 16). *)
Definition handleAddTodo (s : TodoInputState) : TodoInputState := s.

(** What [TodoInput] calls besides [useTheme]: [createHomeStyles] of
    '@/assets/styles/home.styles' (line 11), which is not among the
    sources, and the hook [useMutation] of convex/react applied to
    [api.todos.addTodo] (line 14). What they return is not known here;
    each may throw instead. *)
Record TodoInputEnv : Type := mkTodoInputEnv {
  HomeStyles : Type;
  createHomeStyles : JsObject → Completion HomeStyles;
  Mutation : Type;
  useMutation_addTodo : Completion Mutation
}.

(** The text between the tags of [LinearGradient] (line 34), which JSX
    takes as a string child and not as a comment: the code units of
    "/*1:44:50" followed by U+307E, U+3067 and " */". *)
Definition gradient_text : JsString :=
  [47; 42; 49; 58; 52; 52; 58; 53; 48; 12414; 12391; 32; 42; 47]%N.

(** What the element [TodoInput] returns holds that depends on the theme
    or on the text: the [value] and [placeholderTextColor] of the input,
    the [disabled] of the button, the [colors] of its gradient, its
    [style] (the keys of [homeStyles] it lists, [None] for the entry that
    is [false]) and the children of the gradient. *)
Module TodoInputView.
Record t : Type := mk {
  value : JsString;
  placeholderTextColor : option Value;
  disabled : bool;
  gradient : option Leaf;
  style : list (option string);
  children : list JsString
}.
End TodoInputView.

(** One call of the component function [TodoInput] (lines 9-41) in a
    scope: [useTheme], [createHomeStyles(colors)], [useState],
    [useMutation], then the element. A property the scheme lacks reads as
    [None] ([undefined]). Whether the host can display the element is not
    part of the function. *)
Definition TodoInput (env : TodoInputEnv) (scope : Scope) (s : TodoInputState)
    : Completion TodoInputView.t :=
  match useTheme scope with
  | Throw message => Throw message
  | Return context =>
      let colors := ThemeContextType.colors context in
      match createHomeStyles env colors with
      | Throw message => Throw message
      | Return homeStyles =>
          match useMutation_addTodo env with
          | Throw message => Throw message
          | Return addTodo =>
              Return
                (TodoInputView.mk
                   (newTodo s)
                   (get "textMuted" colors)
                   (negb (truthy (trim (newTodo s))))
                   (if truthy (trim (newTodo s))
                    then get2 "gradients" "primary" colors
                    else get2 "gradients" "muted" colors)
                   [Some "addButton";
                    if negb (truthy (trim (newTodo s)))
                    then Some "addButtonDisabled" else None]
                   [gradient_text])
          end
      end
  end.

(** What the user can do to the component: type (the input reports the
    whole new text), submit from the keyboard, press the button. A
    disabled [TouchableOpacity] does not call [onPress]. *)
Inductive InputEvent : Type :=
  | ChangeText (text : JsString)
  | SubmitEditing
  | PressAdd.

Definition input_step (e : InputEvent) (s : TodoInputState) : TodoInputState :=
  match e with
  | ChangeText text => setNewTodo text s
  | SubmitEditing => handleAddTodo s
  | PressAdd => if negb (truthy (trim (newTodo s))) then s else handleAddTodo s
  end.

Fixpoint input_run (evs : list InputEvent) (s : TodoInputState) : TodoInputState :=
  match evs with
  | [] => s
  | e :: rest => input_run rest (input_step e s)
  end.

(** The texts typed in a trace, in order. *)
Fixpoint typed (evs : list InputEvent) : list JsString :=
  match evs with
  | [] => []
  | ChangeText text :: rest => text :: typed rest
  | _ :: rest => typed rest
  end.

(** ** More vocabulary for the provider *)

(** A call of some [toggleDarkMode]. *)
Definition is_toggle (e : Event) : bool :=
  match e with Press | Invoke _ => true | Settle _ => false end.

(** A toggle, or a request that succeeds. *)
Definition succeeding (e : Event) : bool :=
  match e with Press | Invoke _ => true | Settle ok => ok end.

(** A toggle, or a request that fails. *)
Definition failing (e : Event) : bool :=
  match e with Press | Invoke _ => true | Settle ok => negb ok end.

(** A write of the preference. *)
Definition is_key_write (op : StorageOp) : bool :=
  is_write op && uses_fixed_key op.

(** What the storage will hold under the key once the requests in flight
    have succeeded: the value of the last write, or what is stored now. *)
Definition pending_value (w : World) : option string :=
  match last (inflight w) with
  | Some (SetItem _ value) => Some value
  | _ => storage w !! "darkMode"
  end.

(** * Properties *)

(** ** The definitions at work *)

Example lightColors_primary_gradient :
  get2 "gradients" "primary" lightColors = Some (Pair "#3b82f6" "#1d4ed8").
Proof. reflexivity. Qed.

Example darkColors_editInput :
  get2 "backgrounds" "editInput" darkColors = Some (Str "#0f172a").
Proof. reflexivity. Qed.

Example parse_true_padded :
  JSON_parse (" true" ++ String (ascii_of_nat 10) "") = PBool true.
Proof. reflexivity. Qed.

Example parse_one : JSON_parse "1" = POther true.
Proof. reflexivity. Qed.

Example parse_null : JSON_parse "null" = POther false.
Proof. reflexivity. Qed.

Example parse_zero : JSON_parse "-0.0e5" = POther false.
Proof. reflexivity. Qed.

Example parse_underflow : JSON_parse "2e-324" = POther false.
Proof. vm_compute. reflexivity. Qed.

Example parse_least_double : JSON_parse "3e-324" = POther true.
Proof. vm_compute. reflexivity. Qed.

Example parse_empty_string :
  JSON_parse (String (ascii_of_nat 34) (String (ascii_of_nat 34) "")) = POther false.
Proof. reflexivity. Qed.

Example parse_string_value :
  JSON_parse (String (ascii_of_nat 34) ("dark" ++ String (ascii_of_nat 34) ""))
  = POther true.
Proof. reflexivity. Qed.

Example parse_nested : JSON_parse " [1, [true, {}], null ] " = POther true.
Proof. reflexivity. Qed.

Example parse_trailing_comma : JSON_parse "[1,]" = PSyntaxError.
Proof. reflexivity. Qed.

Example parse_leading_zero : JSON_parse "01" = PSyntaxError.
Proof. reflexivity. Qed.

Example parse_word : JSON_parse "dark" = PSyntaxError.
Proof. reflexivity. Qed.

Example parse_nothing : JSON_parse "" = PSyntaxError.
Proof. reflexivity. Qed.

Example stored_word_keeps_flag :
  settle true (mount {["darkMode" := "dark"]})
  = Some (mkWorld false {["darkMode" := "dark"]} [] 1).
Proof. reflexivity. Qed.

Example stored_null_stays_light :
  settle true (mount {["darkMode" := "null"]})
  = Some (mkWorld false {["darkMode" := "null"]} [] 0).
Proof. reflexivity. Qed.

Example run_sample :
  (run [Settle true; Press; Settle true] (mount ∅)) ≫= (fun w => storage w !! "darkMode")
  = Some "true".
Proof. vm_compute. reflexivity. Qed.

(** ** The JSON parser *)

Lemma skip_ws_length (s : string) : String.length (skip_ws s) <= String.length s.
Proof.
  induction s as [| c s IH]; cbn [skip_ws]; [lia |].
  destruct (is_json_ws c); cbn [String.length] in *; lia.
Qed.

Lemma strip_prefix_length (p : string) :
  forall s r : string,
    strip_prefix p s = Some r -> String.length s = String.length p + String.length r.
Proof.
  induction p as [| a p IH]; intros s r; cbn [strip_prefix].
  - intros H. injection H as <-. reflexivity.
  - destruct s as [| b s]; [discriminate |].
    destruct (Ascii.eqb a b); [| discriminate].
    intros H. apply IH in H. cbn [String.length]. lia.
Qed.

Lemma take_digits_length (s : string) :
  String.length (snd (take_digits s)) <= String.length s.
Proof.
  induction s as [| c s IH]; cbn [take_digits]; [cbn; lia |].
  destruct (is_digit c); cbn [snd String.length] in *; lia.
Qed.

Lemma parse_fraction_length (s : string) (ds : list Z) (r : string) :
  parse_fraction s = Some (ds, r) -> String.length r <= String.length s.
Proof.
  unfold parse_fraction. destruct s as [| c s]; [intros H; injection H as _ <-; lia |].
  destruct (has_code 46 c).
  - pose proof (take_digits_length s) as Hl.
    destruct (take_digits s) as [[| d ds'] r']; [discriminate |].
    intros H. injection H as _ <-. cbn [snd String.length] in *. lia.
  - intros H. injection H as _ <-. lia.
Qed.

Lemma parse_exponent_length (s : string) (e : Z) (r : string) :
  parse_exponent s = Some (e, r) -> String.length r <= String.length s.
Proof.
  unfold parse_exponent. destruct s as [| c s]; [intros H; injection H as _ <-; lia |].
  destruct (has_code 101 c || has_code 69 c).
  - assert (Hd : forall t : string,
               String.length t <= String.length s ->
               match take_digits t with
               | ([], _) => None
               | (d :: ds, r0) => Some (e, r0)
               end = Some (e, r) -> String.length r <= String.length (String c s)).
    { intros t Ht. pose proof (take_digits_length t) as Hl.
      destruct (take_digits t) as [[| d ds'] r']; [discriminate |].
      intros H. injection H as <-. cbn [snd String.length] in *. lia. }
    destruct s as [| d s'].
    + cbn. discriminate.
    + destruct (has_code 45 d); [| destruct (has_code 43 d)].
      * pose proof (take_digits_length s') as Hl.
        destruct (take_digits s') as [[| x ds'] r']; [discriminate |].
        intros H. injection H as _ <-. cbn [snd String.length] in *. lia.
      * pose proof (take_digits_length s') as Hl.
        destruct (take_digits s') as [[| x ds'] r']; [discriminate |].
        intros H. injection H as _ <-. cbn [snd String.length] in *. lia.
      * pose proof (take_digits_length (String d s')) as Hl.
        destruct (take_digits (String d s')) as [[| x ds'] r']; [discriminate |].
        intros H. injection H as _ <-. cbn [snd String.length] in *. lia.
  - intros H. injection H as _ <-. lia.
Qed.

Lemma parse_number_length (s : string) (t : bool) (r : string) :
  parse_number s = Some (t, r) -> String.length r < String.length s.
Proof.
  unfold parse_number.
  set (unsigned := match s with
                   | String c rest => if has_code 45 c then rest else s
                   | EmptyString => s
                   end).
  assert (Hu : String.length unsigned <= String.length s).
  { subst unsigned. destruct s as [| c s]; [lia |].
    destruct (has_code 45 c); cbn [String.length]; lia. }
  destruct unsigned as [| c rest]; [discriminate |].
  destruct (is_digit c) eqn:Ed; [| discriminate].
  assert (Hint : String.length
                   (snd (if has_code 48 c then ([0%Z], rest)
                         else take_digits (String c rest)))
                 <= String.length rest).
  { destruct (has_code 48 c); [cbn; lia |].
    cbn [take_digits]. rewrite Ed. cbn [snd]. apply take_digits_length. }
  destruct (if has_code 48 c then ([0%Z], rest) else take_digits (String c rest))
    as [int s1].
  cbn [snd] in Hint.
  destruct (parse_fraction s1) as [[frac s2] |] eqn:Ef; [| discriminate].
  apply parse_fraction_length in Ef.
  destruct (parse_exponent s2) as [[e s3] |] eqn:Ee; [| discriminate].
  apply parse_exponent_length in Ee.
  intros H. injection H as _ <-. cbn [String.length] in *. lia.
Qed.

Lemma parse_string_length_bounded (n : nat) :
  forall (s : string) (seen b : bool) (r : string),
    String.length s <= n ->
    parse_string s seen = Some (b, r) -> String.length r < String.length s.
Proof.
  induction n as [| n IH]; intros s seen b r Hn.
  { destruct s; [discriminate | cbn in Hn; lia]. }
  destruct s as [| c rest]; cbn [parse_string]; [discriminate |].
  cbn [String.length] in Hn.
  destruct (has_code 34 c).
  { intros H. injection H as _ <-. cbn. lia. }
  destruct (has_code 92 c).
  - destruct rest as [| d rest']; [discriminate |].
    destruct (is_escape d).
    { intros H. apply IH in H; cbn [String.length] in *; lia. }
    destruct (has_code 117 d); [| discriminate].
    destruct rest' as [| h1 [| h2 [| h3 [| h4 r4]]]]; try discriminate.
    destruct (is_hex h1 && is_hex h2 && is_hex h3 && is_hex h4); [| discriminate].
    intros H. apply IH in H; cbn [String.length] in *; lia.
  - destruct (Nat.ltb (nat_of_ascii c) 32); [discriminate |].
    intros H. apply IH in H; cbn [String.length] in *; lia.
Qed.

Lemma parse_string_length (s : string) (seen b : bool) (r : string) :
  parse_string s seen = Some (b, r) -> String.length r < String.length s.
Proof. apply (parse_string_length_bounded (String.length s)). lia. Qed.

(** Every parser consumes at least one character. *)
Lemma parse_value_length (fuel : nat) :
  forall (s : string) (v : Parsed) (r : string),
    (parse_value fuel s = Some (v, r) -> String.length r < String.length s)
    /\ (parse_elements fuel s = Some (v, r) -> String.length r < String.length s)
    /\ (parse_members fuel s = Some (v, r) -> String.length r < String.length s).
Proof.
  induction fuel as [| f IH]; intros s v r.
  { split; [| split]; discriminate. }
  split; [| split].
  - cbn [parse_value]. destruct s as [| c rest]; [discriminate |].
    destruct (has_code 34 c).
    { destruct (parse_string rest false) as [[seen r'] |] eqn:Es; [| discriminate].
      apply parse_string_length in Es. intros H. injection H as _ <-. cbn. lia. }
    pose proof (skip_ws_length rest) as Hws.
    destruct (has_code 91 c).
    { destruct (skip_ws rest) as [| c' r'] eqn:Er; [discriminate |].
      destruct (has_code 93 c').
      - intros H. injection H as _ <-. cbn [String.length] in *. lia.
      - intros H. apply (IH (String c' r') v r) in H. cbn [String.length] in *. lia. }
    destruct (has_code 123 c).
    { destruct (skip_ws rest) as [| c' r'] eqn:Er; [discriminate |].
      destruct (has_code 125 c').
      - intros H. injection H as _ <-. cbn [String.length] in *. lia.
      - intros H. apply (IH (String c' r') v r) in H. cbn [String.length] in *. lia. }
    destruct (strip_prefix "true" (String c rest)) as [r1 |] eqn:E1.
    { apply strip_prefix_length in E1. intros H. injection H as _ <-. cbn in *. lia. }
    destruct (strip_prefix "false" (String c rest)) as [r2 |] eqn:E2.
    { apply strip_prefix_length in E2. intros H. injection H as _ <-. cbn in *. lia. }
    destruct (strip_prefix "null" (String c rest)) as [r3 |] eqn:E3.
    { apply strip_prefix_length in E3. intros H. injection H as _ <-. cbn in *. lia. }
    destruct (parse_number (String c rest)) as [[t r4] |] eqn:E4; [| discriminate].
    apply parse_number_length in E4. intros H. injection H as _ <-. exact E4.
  - cbn [parse_elements].
    destruct (parse_value f s) as [[v1 r1] |] eqn:Ev; [| discriminate].
    apply (IH s v1 r1) in Ev.
    pose proof (skip_ws_length r1) as Hws.
    destruct (skip_ws r1) as [| c r'] eqn:Er; [discriminate |].
    destruct (has_code 44 c).
    { intros H. apply (IH (skip_ws r') v r) in H.
      pose proof (skip_ws_length r'). cbn [String.length] in *. lia. }
    destruct (has_code 93 c); [| discriminate].
    intros H. injection H as _ <-. cbn [String.length] in *. lia.
  - cbn [parse_members]. destruct s as [| q key]; [discriminate |].
    destruct (has_code 34 q); [| discriminate].
    destruct (parse_string key false) as [[seen r1] |] eqn:Es; [| discriminate].
    apply parse_string_length in Es.
    pose proof (skip_ws_length r1) as Hws1.
    destruct (skip_ws r1) as [| c r2] eqn:Er1; [discriminate |].
    destruct (has_code 58 c); [| discriminate].
    destruct (parse_value f (skip_ws r2)) as [[v3 r3] |] eqn:Ev; [| discriminate].
    apply (IH (skip_ws r2) v3 r3) in Ev.
    pose proof (skip_ws_length r2) as Hws2.
    pose proof (skip_ws_length r3) as Hws3.
    destruct (skip_ws r3) as [| d r4] eqn:Er3; [discriminate |].
    destruct (has_code 44 d).
    { intros H. apply (IH (skip_ws r4) v r) in H.
      pose proof (skip_ws_length r4). cbn [String.length] in *. lia. }
    destruct (has_code 125 d); [| discriminate].
    intros H. injection H as _ <-. cbn [String.length] in *. lia.
Qed.

(** More fuel than twice the length of the text changes nothing. *)
Lemma parse_value_fuel (fuel : nat) :
  forall s : string,
    (2 * String.length s + 1 <= fuel -> parse_value (S fuel) s = parse_value fuel s)
    /\ (2 * String.length s + 2 <= fuel ->
        parse_elements (S fuel) s = parse_elements fuel s)
    /\ (2 * String.length s + 2 <= fuel ->
        parse_members (S fuel) s = parse_members fuel s).
Proof.
  induction fuel as [| f IH]; intros s.
  { split; [| split]; intros H; lia. }
  split; [| split]; intros Hf.
  - cbn [parse_value]. destruct s as [| c rest]; [reflexivity |].
    cbn [String.length] in Hf.
    pose proof (skip_ws_length rest) as Hws.
    destruct (has_code 34 c); [reflexivity |].
    destruct (has_code 91 c).
    { destruct (skip_ws rest) as [| c' r'] eqn:Er; [reflexivity |].
      destruct (has_code 93 c'); [reflexivity |].
      apply (IH (String c' r')). lia. }
    destruct (has_code 123 c); [| reflexivity].
    destruct (skip_ws rest) as [| c' r'] eqn:Er; [reflexivity |].
    destruct (has_code 125 c'); [reflexivity |].
    apply (IH (String c' r')). lia.
  - cbn [parse_elements].
    destruct (IH s) as (Hv & _ & _). rewrite Hv by lia.
    destruct (parse_value f s) as [[v1 r1] |] eqn:Ev; [| reflexivity].
    apply (parse_value_length f s v1 r1) in Ev.
    pose proof (skip_ws_length r1) as Hws.
    destruct (skip_ws r1) as [| c r'] eqn:Er; [reflexivity |].
    destruct (has_code 44 c); [| reflexivity].
    pose proof (skip_ws_length r'). cbn [String.length] in *.
    apply (IH (skip_ws r')). lia.
  - cbn [parse_members]. destruct s as [| q key]; [reflexivity |].
    cbn [String.length] in Hf.
    destruct (has_code 34 q); [| reflexivity].
    destruct (parse_string key false) as [[seen r1] |] eqn:Es; [| reflexivity].
    apply parse_string_length in Es.
    pose proof (skip_ws_length r1) as Hws1.
    destruct (skip_ws r1) as [| c r2] eqn:Er1; [reflexivity |].
    destruct (has_code 58 c); [| reflexivity].
    pose proof (skip_ws_length r2) as Hws2. cbn [String.length] in *.
    destruct (IH (skip_ws r2)) as (Hv & _ & _). rewrite Hv by lia.
    destruct (parse_value f (skip_ws r2)) as [[v3 r3] |] eqn:Ev; [| reflexivity].
    apply (parse_value_length f (skip_ws r2) v3 r3) in Ev.
    pose proof (skip_ws_length r3) as Hws3.
    destruct (skip_ws r3) as [| d r4] eqn:Er3; [reflexivity |].
    destruct (has_code 44 d); [| reflexivity].
    pose proof (skip_ws_length r4). cbn [String.length] in *.
    apply (IH (skip_ws r4)). lia.
Qed.

(** The fuel [JSON_parse] gives is enough: with any more, the result is
    the same. *)
Lemma JSON_parse_fuel (text : string) (extra : nat) :
  parse_value (extra + (2 * String.length text + 2)) (skip_ws text)
  = parse_value (2 * String.length text + 2) (skip_ws text).
Proof.
  induction extra as [| n IH]; [reflexivity |].
  rewrite <- IH. cbn [Nat.add].
  apply (parse_value_fuel (n + (2 * String.length text + 2)) (skip_ws text)).
  pose proof (skip_ws_length text). lia.
Qed.

(** ** The colour schemes *)

Lemma key_paths_agree : key_paths lightColors = key_paths darkColors.
Proof. reflexivity. Qed.

Lemma key_paths_declared : key_paths lightColors = declared_paths ColorScheme.
Proof. reflexivity. Qed.

Lemma schemes_differ : lightColors ≠ darkColors.
Proof. intros H. discriminate H. Qed.

(** C9. Scheme completeness: [lightColors] and [darkColors] expose the same
    keys (at both levels, and exactly those the [ColorScheme] interface
    declares, each once), every field of both holds non-empty strings of
    the declared type, and the [statusBarStyle] of each is one of
    "light-content" and "dark-content".  *)
Theorem scheme_completeness :
  key_paths lightColors = key_paths darkColors
  ∧ (∀ p : list string, p ∈ key_paths lightColors ↔ p ∈ key_paths darkColors)
  ∧ key_paths lightColors = declared_paths ColorScheme
  ∧ NoDup (key_paths lightColors)
  ∧ has_type lightColors ColorScheme = true
  ∧ has_type darkColors ColorScheme = true
  ∧ populated lightColors = true
  ∧ populated darkColors = true
  ∧ statusBarStyle lightColors = Some (Atom (Str "dark-content"))
  ∧ statusBarStyle darkColors = Some (Atom (Str "light-content"))
  ∧ (∀ scheme : JsObject, scheme ∈ [lightColors; darkColors] →
       statusBarStyle scheme = Some (Atom (Str "light-content"))
       ∨ statusBarStyle scheme = Some (Atom (Str "dark-content"))).
Proof.
  split; [exact key_paths_agree |].
  split; [intros p; rewrite key_paths_agree; reflexivity |].
  split; [exact key_paths_declared |].
  split; [compute_done |].
  repeat (split; [reflexivity |]).
  intros scheme Hin.
  apply elem_of_cons in Hin as [-> | Hin]; [right; reflexivity |].
  apply elem_of_cons in Hin as [-> | Hin]; [left; reflexivity |].
  apply elem_of_nil in Hin. contradiction.
Qed.

(** ** Derivation of the published colours *)

(** C1. The colours a render publishes are decided by the flag alone: the
    dark scheme when the flag is true, the light scheme when it is false,
    never anything else; two states with the same flag publish the same
    colours, and the two schemes are different values. *)
Theorem colors_pure_function_of_flag (w : World) :
  ThemeContextType.isDarkMode (ThemeProvider w) = state w
  ∧ ThemeContextType.colors (ThemeProvider w)
    = (if ThemeContextType.isDarkMode (ThemeProvider w) then darkColors else lightColors)
  ∧ (state w = true → ThemeContextType.colors (ThemeProvider w) = darkColors)
  ∧ (state w = false → ThemeContextType.colors (ThemeProvider w) = lightColors)
  ∧ (ThemeContextType.colors (ThemeProvider w) = darkColors
     ∨ ThemeContextType.colors (ThemeProvider w) = lightColors)
  ∧ (∀ w' : World, state w' = state w →
       ThemeContextType.colors (ThemeProvider w') = ThemeContextType.colors (ThemeProvider w))
  ∧ lightColors ≠ darkColors.
Proof.
  unfold ThemeProvider; cbn [ThemeContextType.isDarkMode ThemeContextType.colors].
  split; [reflexivity |].
  split; [reflexivity |].
  split; [intros ->; reflexivity |].
  split; [intros ->; reflexivity |].
  split; [destruct (state w); [left | right]; reflexivity |].
  split; [intros w' ->; reflexivity |].
  exact schemes_differ.
Qed.

(** ** The accessor *)

(** C2. Outside every provider [useTheme] throws, at once, the error
    "useTheme must be used within a ThemeProvider", whose message names the
    missing provider, and returns no context value; among the children of a
    [ThemeProvider], and in any scope that is not empty, it returns the
    innermost published value and does not throw. *)
Theorem useTheme_fail_fast :
  useTheme [] = Throw "useTheme must be used within a ThemeProvider"
  ∧ (∀ message : string, useTheme [] = Throw message →
       message = String.append "useTheme must be used within a " "ThemeProvider")
  ∧ (∀ context : ThemeContextType.t, useTheme [] ≠ Return context)
  ∧ (∀ (w : World) (outer : Scope),
       useTheme (children_scope w outer) = Return (ThemeProvider w))
  ∧ (∀ (context : ThemeContextType.t) (outer : Scope) (message : string),
       useTheme (context :: outer) = Return context
       ∧ useTheme (context :: outer) ≠ Throw message).
Proof.
  split; [reflexivity |].
  split; [intros message H; injection H as <-; reflexivity |].
  split; [intros context H; discriminate H |].
  split; [reflexivity |].
  intros context outer message. split; [reflexivity | intros H; discriminate H].
Qed.

(** ** Mounting *)

(** C3. A provider that has just been constructed, its read of the
    preference still in flight, publishes [isDarkMode = false] and the light
    scheme, whatever the storage holds; when the storage holds no
    preference this is still so once the read has settled. *)
Theorem fresh_provider_default (disk : gmap string string) :
  state (mount disk) = false
  ∧ ThemeContextType.isDarkMode (ThemeProvider (mount disk)) = false
  ∧ ThemeContextType.colors (ThemeProvider (mount disk)) = lightColors
  ∧ inflight (mount disk) = [GetItem "darkMode"]
  ∧ storage (mount disk) = disk
  ∧ (disk !! "darkMode" = None →
       ∀ ok : bool, ∃ w : World,
         settle ok (mount disk) = Some w
         ∧ ThemeContextType.isDarkMode (ThemeProvider w) = false
         ∧ ThemeContextType.colors (ThemeProvider w) = lightColors).
Proof.
  repeat (split; [reflexivity |]).
  intros Hnone ok. unfold settle, mount, AsyncStorage_getItem; cbn.
  destruct ok.
  - rewrite Hnone. cbn. eexists; split; [reflexivity |]. split; reflexivity.
  - eexists; split; [reflexivity |]. split; reflexivity.
Qed.

(** ** Toggling *)

(** C4. Two calls of [toggleDarkMode] in sequence, the second taken from
    the value published after the first, bring the flag (and so the
    published value and colours) back to where it was; after the first
    call alone the flag is the negation. *)
Theorem toggle_twice_restores_flag (w : World) :
  let c1 := ThemeProvider w in
  let w1 := ThemeContextType.toggleDarkMode c1 w in
  let c2 := ThemeProvider w1 in
  let w2 := ThemeContextType.toggleDarkMode c2 w1 in
  ThemeContextType.isDarkMode c2 = negb (ThemeContextType.isDarkMode c1)
  ∧ state w2 = state w
  ∧ ThemeContextType.isDarkMode (ThemeProvider w2) = ThemeContextType.isDarkMode c1
  ∧ ThemeContextType.colors (ThemeProvider w2) = ThemeContextType.colors c1
  ∧ run [Press; Press] w = Some w2.
Proof.
  cbn. rewrite negb_involutive. repeat split; reflexivity.
Qed.

(** ** Reading the preference at start-up *)

Lemma JSON_parse_stringify (b : bool) : JSON_parse (JSON_stringify b) = PBool b.
Proof. destruct b; reflexivity. Qed.

Lemma JSON_parse_nonempty (v : string) (b : bool) :
  JSON_parse v = PBool b → nonempty v = true.
Proof. destruct v as [| c v]; [intros H; discriminate H | reflexivity]. Qed.

Lemma settle_mount_read (disk : gmap string string) :
  settle true (mount disk)
  = Some (onStoredValue (disk !! "darkMode") (mkWorld false disk [] 0)).
Proof. reflexivity. Qed.




(** ** Calls in a row *)

Lemma run_invokes (cs : list bool) :
  ∀ w : World,
    ∃ w1 : World,
      run (map Invoke cs) w = Some w1
      ∧ inflight w1 = inflight w ++ map (λ c : bool, write_of (negb c)) cs
      ∧ storage w1 = storage w
      ∧ state w1 = default (state w) (negb <$> last cs).
Proof.
  induction cs as [| c cs IH]; intros w; cbn [map run step].
  - exists w. rewrite app_nil_r. repeat split; reflexivity.
  - destruct (IH (toggleDarkMode c w)) as (w1 & Hrun & Hq & Hdisk & Hst).
    exists w1. split; [exact Hrun |]. split; [| split].
    + rewrite Hq. cbn. rewrite <- app_assoc. reflexivity.
    + rewrite Hdisk. reflexivity.
    + rewrite Hst. destruct cs as [| c' cs]; [reflexivity |].
      rewrite last_cons_cons. destruct (last (c' :: cs)) eqn:El; [reflexivity |].
      apply last_None in El. discriminate El.
Qed.

Lemma writes_are_writes (cs : list bool) :
  forallb is_write (map (λ c : bool, write_of (negb c)) cs) = true.
Proof. induction cs as [| c cs IH]; [reflexivity | exact IH]. Qed.

(** ** A failed write *)

(** Settling takes the oldest request off the queue and never issues one. *)
Lemma settle_issues_nothing (ok : bool) (w w' : World) :
  settle ok w = Some w' → inflight w' = tail (inflight w).
Proof.
  unfold settle. destruct (inflight w) as [| op rest] eqn:Eq.
  - intros H. injection H as <-. exact Eq.
  - destruct op as [key | key value]; destruct ok; cbn [tail];
      try (intros H; injection H as <-; reflexivity).
    unfold onStoredValue. intros H. injection H as <-.
    destruct (storage w !! key) as [v |]; [| reflexivity].
    destruct (nonempty v); [| reflexivity].
    destruct (JSON_parse v); reflexivity.
Qed.

Lemma promises_invokes (cs : list bool) :
  ∀ (evs : list Event) (w : World) (outcomes : list bool),
    ∃ w1 : World,
      run (map Invoke cs) w = Some w1
      ∧ promises (map Invoke cs ++ evs) w outcomes = promises evs w1 outcomes.
Proof.
  induction cs as [| c cs IH]; intros evs w outcomes; cbn [map app run promises step].
  - exists w. split; reflexivity.
  - destruct (IH evs (toggleDarkMode c w) outcomes) as (w1 & Hrun & Hp).
    exists w1. split; [exact Hrun |].
    unfold track. destruct (inflight w) as [| [k | k v] q]; exact Hp.
Qed.

Lemma promises_settles (oks : list bool) :
  ∀ (w : World) (outcomes : list bool),
    forallb is_write (inflight w) = true →
    (List.length oks ≤ List.length (inflight w))%nat →
    promises (map Settle oks) w outcomes = outcomes ++ oks.
Proof.
  induction oks as [| ok oks IH]; intros w outcomes Hq Hlen; cbn [map promises step].
  - rewrite app_nil_r. reflexivity.
  - unfold settle, track. destruct (inflight w) as [| op rest] eqn:Eq.
    + cbn in Hlen. lia.
    + cbn in Hq. apply andb_true_iff in Hq as [Hop Hrest].
      destruct op as [key | key value]; [discriminate Hop |].
      cbn in Hlen.
      destruct ok; (rewrite IH; [rewrite <- app_assoc; reflexivity | exact Hrest | cbn; lia]).
Qed.

(** C7, as the code has it. When the write of a toggle fails, the flag the
    toggle set stays as it is (the published value is the one a successful
    write would have left), storage keeps its old content, the request
    leaves the queue and no new one is issued. The failure does reach the
    caller, and only the caller: the promise the call returned rejects,
    as the promise of every call settles the way its write does. *)
Theorem failed_write_keeps_flag (w : World) (isDarkMode : bool) :
  inflight w = [] →
  let w1 := toggleDarkMode isDarkMode w in
  state w1 = negb isDarkMode
  ∧ settle false w1
    = Some (mkWorld (negb isDarkMode) (storage w) [] (S (unhandled w)))
  ∧ settle true w1
    = Some (mkWorld (negb isDarkMode)
              (<["darkMode" := JSON_stringify (negb isDarkMode)]> (storage w)) []
              (unhandled w))
  ∧ ThemeProvider (mkWorld (negb isDarkMode) (storage w) [] (S (unhandled w)))
    = ThemeProvider w1
  ∧ (∀ (st : bool) (disk : gmap string string) (key value : string)
       (rest : list StorageOp) (u : nat),
       settle false (mkWorld st disk (SetItem key value :: rest) u)
       = Some (mkWorld st disk rest (S u)))
  ∧ (∀ (ok : bool) (w0 w' : World),
       settle ok w0 = Some w' → inflight w' = tail (inflight w0))
  ∧ promises [Invoke isDarkMode; Settle false] w [] = [false]
  ∧ promises [Invoke isDarkMode; Settle true] w [] = [true]
  ∧ (∀ cs oks : list bool,
       List.length oks = List.length cs →
       promises (map Invoke cs ++ map Settle oks) w [] = oks).
Proof.
  intros Hq. cbn zeta.
  assert (Hall : ∀ cs oks : list bool,
             List.length oks = List.length cs →
             promises (map Invoke cs ++ map Settle oks) w [] = oks).
  { intros cs oks Hlen.
    destruct (promises_invokes cs (map Settle oks) w []) as (w1 & Hrun & ->).
    destruct (run_invokes cs w) as (w1' & Hrun' & Hq1 & _).
    rewrite Hrun in Hrun'. injection Hrun' as <-.
    rewrite Hq in Hq1. cbn [app] in Hq1.
    apply promises_settles.
    - rewrite Hq1. apply writes_are_writes.
    - rewrite Hq1, length_map. lia. }
  split; [reflexivity |].
  split; [unfold toggleDarkMode, AsyncStorage_setItem, setIsDarkMode, settle; cbn;
          rewrite Hq; reflexivity |].
  split; [unfold toggleDarkMode, AsyncStorage_setItem, setIsDarkMode, settle; cbn;
          rewrite Hq; reflexivity |].
  split; [reflexivity |].
  split; [reflexivity |].
  split; [exact settle_issues_nothing |].
  split; [exact (Hall [isDarkMode] [false] eq_refl) |].
  split; [exact (Hall [isDarkMode] [true] eq_refl) |].
  exact Hall.
Qed.

(** C7 as stated fails: a light provider, one call of the published
    [toggleDarkMode], the write fails. The flag stays [true] and nothing
    is stored, but the failure is surfaced to the caller: the promise the
    call returned is rejected. *)
Lemma failed_write_counterexample :
  let w := mkWorld false ∅ [] 0 in
  run [Press; Settle false] w = Some (mkWorld true ∅ [] 1)
  ∧ promises [Press; Settle false] w [] = [false]
  ∧ promises [Press; Settle true] w [] = [true].
Proof. cbn zeta. split; [reflexivity |]. split; reflexivity. Qed.

(** ** The storage key *)

Lemma uses_fixed_key_write (b : bool) :
  uses_fixed_key (SetItem "darkMode" (JSON_stringify b)) = true.
Proof. destruct b; reflexivity. Qed.

Lemma serialized_boolean_adopted (stored : option string) (w : World) :
  serialized_boolean stored = true →
  ∃ b : bool, onStoredValue stored w = setIsDarkMode b w.
Proof.
  destruct stored as [v |]; cbn.
  - intros H. apply orb_true_iff in H as [H | H]; apply String.eqb_eq in H; subst v.
    + exists true. reflexivity.
    + exists false. reflexivity.
  - intros _. exists (state w). destruct w; reflexivity.
Qed.

Lemma key_inv_toggle (disk : gmap string string) (c : bool) (w : World) :
  key_inv disk w → key_inv disk (toggleDarkMode c w).
Proof.
  intros (Hq & Hother & Hkey).
  unfold key_inv, toggleDarkMode, AsyncStorage_setItem, setIsDarkMode.
  cbn [inflight storage].
  split; [| split; assumption].
  rewrite forallb_app, Hq. cbn [forallb]. rewrite uses_fixed_key_write. reflexivity.
Qed.

Lemma key_inv_settle (disk : gmap string string) (ok : bool) (w : World) :
  key_inv disk w → ∃ w' : World, settle ok w = Some w' ∧ key_inv disk w'.
Proof.
  intros (Hq & Hother & Hkey). unfold settle.
  destruct (inflight w) as [| op rest] eqn:Eq.
  - exists w. split; [reflexivity |]. unfold key_inv. rewrite Eq. auto.
  - cbn in Hq. apply andb_true_iff in Hq as [Hop Hrest].
    destruct op as [key | key value]; cbn in Hop.
    + apply String.eqb_eq in Hop; subst key. destruct ok.
      * destruct (serialized_boolean_adopted (storage w !! "darkMode")
                    (mkWorld (state w) (storage w) rest (unhandled w)) Hkey) as [b Hb].
        rewrite Hb. eexists; split; [reflexivity |]. repeat split; assumption.
      * eexists; split; [reflexivity |]. repeat split; assumption.
    + apply andb_true_iff in Hop as [Hk Hv]. apply String.eqb_eq in Hk; subst key.
      destruct ok.
      * eexists; split; [reflexivity |]. unfold key_inv; cbn.
        split; [assumption |]. split.
        -- intros k Hk. rewrite lookup_insert_ne; [auto | congruence].
        -- rewrite lookup_insert_eq. exact Hv.
      * eexists; split; [reflexivity |]. repeat split; assumption.
Qed.

Lemma key_inv_step (disk : gmap string string) (e : Event) (w : World) :
  key_inv disk w → ∃ w' : World, step e w = Some w' ∧ key_inv disk w'.
Proof.
  intros Hinv. destruct e as [| c | ok]; cbn [step].
  - eexists; split; [reflexivity |]. apply key_inv_toggle, Hinv.
  - eexists; split; [reflexivity |]. apply key_inv_toggle, Hinv.
  - apply key_inv_settle, Hinv.
Qed.

Lemma key_inv_run (disk : gmap string string) (evs : list Event) :
  ∀ w : World, key_inv disk w → ∃ w' : World, run evs w = Some w' ∧ key_inv disk w'.
Proof.
  induction evs as [| e evs IH]; intros w Hinv; cbn [run].
  - exists w. split; [reflexivity | assumption].
  - destruct (key_inv_step disk e w Hinv) as (w1 & Hstep & Hinv1).
    rewrite Hstep. apply IH, Hinv1.
Qed.

(** C8. Reads and writes name one key, the constant ["darkMode"]: the read
    issued on mount and the write issued by every toggle use it, every
    request ever in flight does, no other key of the storage changes, and
    the value under the key, when there is one, is ["true"] or ["false"],
    in every state the provider reaches from a storage that holds no
    preference or one it wrote itself. *)
Theorem single_key_serialized_boolean (disk : gmap string string) (evs : list Event) :
  serialized_boolean (disk !! "darkMode") = true →
  inflight (mount disk) = [GetItem "darkMode"]
  ∧ (∀ (c : bool) (w : World),
       inflight (toggleDarkMode c w)
       = inflight w ++ [SetItem "darkMode" (JSON_stringify (negb c))]
       ∧ storage (toggleDarkMode c w) = storage w)
  ∧ (∀ b : bool, JSON_stringify b = (if b then "true" else "false"))
  ∧ ∃ w : World,
      run evs (mount disk) = Some w
      ∧ forallb uses_fixed_key (inflight w) = true
      ∧ (∀ k : string, k ≠ "darkMode" → storage w !! k = disk !! k)
      ∧ serialized_boolean (storage w !! "darkMode") = true.
Proof.
  intros Hdisk.
  split; [reflexivity |].
  split; [intros c w; split; reflexivity |].
  split; [intros b; reflexivity |].
  apply key_inv_run. unfold key_inv, mount; cbn. auto.
Qed.

(** ** Round trip through the storage *)


Lemma odd_succ_negb (p : nat) : Nat.odd (S p) = negb (Nat.odd p).
Proof. rewrite Nat.odd_succ, <- Nat.negb_odd. reflexivity. Qed.







Lemma run_app (evs1 evs2 : list Event) :
  ∀ w : World, run (evs1 ++ evs2) w = run evs1 w ≫= run evs2.
Proof.
  induction evs1 as [| e evs1 IH]; intros w; cbn [app run]; [reflexivity |].
  destruct (step e w) as [w1 |]; [apply IH | reflexivity].
Qed.




(** ** Toggles in rapid succession *)

(** Writes are served in the order of issue, so the last one decides what
    is stored, whatever became of the earlier ones. *)
Lemma drain_writes (q : list StorageOp) :
  ∀ (oks : list bool) (w : World) (key value : string),
    inflight w = q ++ [SetItem key value] →
    forallb is_write q = true →
    List.length oks = List.length q →
    ∃ w' : World,
      run (map Settle oks ++ [Settle true]) w = Some w'
      ∧ state w' = state w
      ∧ storage w' !! key = Some value
      ∧ inflight w' = [].
Proof.
  induction q as [| op q IH]; intros oks w key value Hq Hw Hlen.
  - destruct oks as [| ok oks]; [| discriminate Hlen].
    cbn [map app run step]. unfold settle. rewrite Hq. cbn.
    eexists; split; [reflexivity |]. cbn. rewrite lookup_insert_eq. auto.
  - destruct oks as [| ok oks]; [discriminate Hlen |].
    cbn in Hw. apply andb_true_iff in Hw as [Hop Hw].
    destruct op as [k | k v]; [discriminate Hop |].
    cbn [map app run step]. unfold settle. rewrite Hq. cbn [app].
    destruct ok.
    + apply (IH oks (mkWorld (state w) (<[k := v]> (storage w)) (q ++ [SetItem key value])
                       (unhandled w)) key value);
        [reflexivity | exact Hw | auto].
    + apply (IH oks (reject (mkWorld (state w) (storage w) (q ++ [SetItem key value])
                               (unhandled w))) key value);
        [reflexivity | exact Hw | auto].
Qed.

(** C10, as the code has it. A call of [toggleDarkMode] sets the flag to
    the negation of the [isDarkMode] its closure captured, which is the
    present flag when the closure comes from the value published for the
    present state; it issues one write of ["darkMode"] of its own, behind
    those in flight, and changes nothing else. After calls in a row and
    the settling of all their writes, of which the last succeeds, the
    stored value and the flag are those of the last call. *)
Theorem rapid_toggles_use_captured_flag
    (w : World) (cs : list bool) (c : bool) (oks : list bool) :
  inflight w = [] →
  List.length oks = List.length cs →
  (∀ (c0 : bool) (w0 : World),
     state (toggleDarkMode c0 w0) = negb c0
     ∧ inflight (toggleDarkMode c0 w0)
       = inflight w0 ++ [SetItem "darkMode" (JSON_stringify (negb c0))]
     ∧ storage (toggleDarkMode c0 w0) = storage w0
     ∧ unhandled (toggleDarkMode c0 w0) = unhandled w0)
  ∧ (∀ w0 : World,
       state (ThemeContextType.toggleDarkMode (ThemeProvider w0) w0) = negb (state w0))
  ∧ ∃ w1 w2 : World,
      run (map Invoke (cs ++ [c])) w = Some w1
      ∧ state w1 = negb c
      ∧ inflight w1
        = map (λ c0 : bool, SetItem "darkMode" (JSON_stringify (negb c0))) (cs ++ [c])
      ∧ storage w1 = storage w
      ∧ run (map Settle (oks ++ [true])) w1 = Some w2
      ∧ state w2 = negb c
      ∧ storage w2 !! "darkMode" = Some (JSON_stringify (negb c))
      ∧ inflight w2 = [].
Proof.
  intros Hq Hlen.
  split; [intros c0 w0; repeat split; reflexivity |].
  split; [intros w0; reflexivity |].
  destruct (run_invokes (cs ++ [c]) w) as (w1 & Hrun & Hq1 & Hdisk & Hst).
  rewrite Hq in Hq1. cbn [app] in Hq1.
  rewrite last_snoc in Hst. cbn in Hst.
  assert (Hq1' : inflight w1
                 = map (λ c0 : bool, write_of (negb c0)) cs
                   ++ [SetItem "darkMode" (JSON_stringify (negb c))]).
  { rewrite Hq1, map_app. reflexivity. }
  destruct (drain_writes _ oks w1 _ _ Hq1' (writes_are_writes cs)) as (w2 & Hrun2 & Hst2 & Hv & Hq2).
  { rewrite length_map. exact Hlen. }
  exists w1, w2. split; [exact Hrun |]. split; [exact Hst |].
  split; [exact Hq1 |]. split; [exact Hdisk |].
  split; [rewrite map_app; exact Hrun2 |].
  split; [rewrite Hst2; exact Hst |]. split; [exact Hv | exact Hq2].
Qed.

(** C10 as stated fails: the [toggleDarkMode] published for a light
    provider is called twice in a row. At the second call the flag is
    already [true], also for a render made at that moment, yet the call does
    not compute its negation: it sets [true] again, and writes ["true"] a
    second time. *)
Lemma rapid_toggles_counterexample :
  let w0 := mkWorld false ∅ [] 0 in
  let published := ThemeProvider w0 in
  let w1 := ThemeContextType.toggleDarkMode published w0 in
  let w2 := ThemeContextType.toggleDarkMode published w1 in
  run [Settle true] (mount ∅) = Some w0
  ∧ state w1 = true
  ∧ ThemeContextType.isDarkMode (ThemeProvider w1) = true
  ∧ state w2 ≠ negb (state w1)
  ∧ state w2 = true
  ∧ inflight w2 = [SetItem "darkMode" "true"; SetItem "darkMode" "true"].
Proof.
  cbn zeta. split; [reflexivity |]. split; [reflexivity |]. split; [reflexivity |].
  split; [cbn; discriminate |]. split; reflexivity.
Qed.

(** ** Instances *)



(** A light provider toggles and the write fails: the flag stays [true]
    and nothing is stored. *)
Lemma failed_write_keeps_flag_witness :
  settle false (toggleDarkMode false (mkWorld false ∅ [] 0))
  = Some (mkWorld true ∅ [] 1).
Proof.
  exact (proj1 (proj2 (failed_write_keeps_flag (mkWorld false ∅ [] 0) false eq_refl))).
Defined.

(** A run with a stale call and a failed write over a storage that holds
    another key as well. *)
Lemma single_key_serialized_boolean_witness :
  ∃ w : World,
    run [Settle true; Press; Invoke false; Settle false; Settle true]
      (mount {["language" := "ja"]})
    = Some w
    ∧ forallb uses_fixed_key (inflight w) = true
    ∧ (∀ k : string, k ≠ "darkMode" →
         storage w !! k = ({["language" := "ja"]} : gmap string string) !! k)
    ∧ serialized_boolean (storage w !! "darkMode") = true.
Proof.
  exact (proj2 (proj2 (proj2
    (single_key_serialized_boolean {["language" := "ja"]}
       [Settle true; Press; Invoke false; Settle false; Settle true] eq_refl)))).
Defined.

(** Two calls through the closure of a light render, the first write
    failing: ["true"] is stored and the flag is [true]. *)
Lemma rapid_toggles_use_captured_flag_witness :
  ∃ w1 w2 : World,
    run [Invoke false; Invoke false] (mkWorld false ∅ [] 0) = Some w1
    ∧ state w1 = true
    ∧ inflight w1 = [SetItem "darkMode" "true"; SetItem "darkMode" "true"]
    ∧ storage w1 = ∅
    ∧ run [Settle false; Settle true] w1 = Some w2
    ∧ state w2 = true
    ∧ storage w2 !! "darkMode" = Some "true"
    ∧ inflight w2 = [].
Proof.
  exact (proj2 (proj2
    (rapid_toggles_use_captured_flag (mkWorld false ∅ [] 0) [false] false [false]
       eq_refl eq_refl))).
Defined.

(** * Further properties *)

(** ** The input component *)

Lemma skip_js_ws_nil (s : JsString) :
  skip_js_ws s = [] ↔ forallb is_js_ws s = true.
Proof.
  induction s as [| u s IH]; cbn [skip_js_ws forallb]; [tauto |].
  destruct (is_js_ws u); cbn [andb]; [exact IH |].
  split; intros H; discriminate H.
Qed.

Lemma forallb_rev_same {A : Type} (f : A → bool) (l : list A) :
  forallb f (rev l) = forallb f l.
Proof.
  induction l as [| a l IH]; [reflexivity |].
  cbn [rev forallb]. rewrite forallb_app, IH. cbn. rewrite andb_true_r.
  apply andb_comm.
Qed.

Lemma skip_js_ws_head (s : JsString) :
  forallb is_js_ws (skip_js_ws s) = true → skip_js_ws s = [].
Proof.
  induction s as [| u s IH]; cbn [skip_js_ws]; [reflexivity |].
  destruct (is_js_ws u) eqn:Eu; [exact IH |].
  cbn [forallb]. rewrite Eu. intros H; discriminate H.
Qed.

Lemma trim_blank (s : JsString) :
  negb (truthy (trim s)) = forallb is_js_ws s.
Proof.
  destruct (forallb is_js_ws s) eqn:Es.
  - apply skip_js_ws_nil in Es. unfold trim. rewrite Es. reflexivity.
  - destruct (trim s) as [| u r] eqn:Et; [| reflexivity].
    exfalso. unfold trim in Et.
    apply (f_equal (@rev N)) in Et. rewrite rev_involutive in Et. cbn in Et.
    apply skip_js_ws_nil in Et. rewrite forallb_rev_same in Et.
    apply skip_js_ws_head, skip_js_ws_nil in Et. congruence.
Qed.

(** X1. [TodoInput] called outside every [ThemeProvider] throws the error
    of [useTheme], whatever [createHomeStyles] and [useMutation] would do.
    Under a provider it hands the provider's colours to
    [createHomeStyles] and throws what that or, after it, [useMutation]
    throws; when both return, it returns an element in which every colour
    is defined: the placeholder has the muted text colour of the current
    scheme, the gradient of the enabled button is the same pair in both
    schemes, the gradient of the disabled button follows the scheme; the
    gradient has the stray text as its only child. *)
Theorem TodoInput_needs_provider (env : TodoInputEnv) (s : TodoInputState) :
  TodoInput env [] s = Throw "useTheme must be used within a ThemeProvider"
  ∧ ∀ (w : World) (outer : Scope),
      (∀ message : string,
         createHomeStyles env (ThemeContextType.colors (ThemeProvider w)) = Throw message →
         TodoInput env (children_scope w outer) s = Throw message)
      ∧ (∀ (homeStyles : HomeStyles env) (message : string),
           createHomeStyles env (ThemeContextType.colors (ThemeProvider w))
           = Return homeStyles →
           useMutation_addTodo env = Throw message →
           TodoInput env (children_scope w outer) s = Throw message)
      ∧ (∀ (homeStyles : HomeStyles env) (addTodo : Mutation env),
           createHomeStyles env (ThemeContextType.colors (ThemeProvider w))
           = Return homeStyles →
           useMutation_addTodo env = Return addTodo →
           ∃ view : TodoInputView.t,
             TodoInput env (children_scope w outer) s = Return view
             ∧ TodoInputView.value view = newTodo s
             ∧ TodoInputView.placeholderTextColor view
               = Some (Atom (Str (if state w then "#94a3b8" else "#64748b")))
             ∧ TodoInputView.gradient view
               = Some (if TodoInputView.disabled view
                       then (if state w then Pair "#374151" "#4b5563"
                             else Pair "#9ca3af" "#6b7280")
                       else Pair "#3b82f6" "#1d4ed8")
             ∧ TodoInputView.children view = [gradient_text]).
Proof.
  split; [reflexivity |].
  intros w outer. unfold TodoInput, children_scope, useTheme, useContext.
  cbn [head]. split; [| split].
  - intros message ->. reflexivity.
  - intros homeStyles message -> ->. reflexivity.
  - intros homeStyles addTodo -> ->.
    eexists. split; [reflexivity |].
    cbn [TodoInputView.value TodoInputView.placeholderTextColor
         TodoInputView.gradient TodoInputView.disabled TodoInputView.children].
    split; [reflexivity |].
    unfold ThemeProvider. cbn [ThemeContextType.colors].
    destruct (state w), (truthy (trim (newTodo s))); repeat split; reflexivity.
Qed.

(** X2. The add button is disabled exactly when the text consists of white
    space only (the empty text included); its style then lists
    [addButtonDisabled] and its gradient is the scheme's muted one, else
    the primary one; and pressing the button in that state changes
    nothing. *)
Theorem add_button_disabled_iff_blank
    (env : TodoInputEnv) (scope : Scope) (s : TodoInputState) (view : TodoInputView.t) :
  TodoInput env scope s = Return view →
  TodoInputView.disabled view = forallb is_js_ws (newTodo s)
  ∧ TodoInputView.style view
    = [Some "addButton";
       if forallb is_js_ws (newTodo s) then Some "addButtonDisabled" else None]
  ∧ (∃ context : ThemeContextType.t,
       useTheme scope = Return context
       ∧ TodoInputView.gradient view
         = get2 "gradients"
             (if forallb is_js_ws (newTodo s) then "muted" else "primary")
             (ThemeContextType.colors context))
  ∧ (forallb is_js_ws (newTodo s) = true → input_step PressAdd s = s).
Proof.
  unfold TodoInput. destruct (useTheme scope) as [context | message]; [| discriminate].
  destruct (createHomeStyles env _) as [homeStyles | message]; [| discriminate].
  destruct (useMutation_addTodo env) as [addTodo | message]; [| discriminate].
  intros H. injection H as <-.
  cbn [TodoInputView.disabled TodoInputView.style TodoInputView.gradient].
  rewrite trim_blank.
  split; [reflexivity |]. split; [reflexivity |]. split.
  - exists context. split; [reflexivity |].
    rewrite <- (trim_blank (newTodo s)).
    destruct (truthy (trim (newTodo s))); reflexivity.
  - intros Hb. cbn [input_step]. rewrite trim_blank, Hb. reflexivity.
Qed.

(** X3. Whatever the user types, submits or presses, the [addTodo]
    mutation is never called and the text is never cleared: after any
    trace the text is the last one typed (the text before the trace when
    nothing was typed). *)
Theorem submit_never_sends_or_clears (evs : list InputEvent) (s : TodoInputState) :
  addTodo_calls (input_run evs s) = addTodo_calls s
  ∧ newTodo (input_run evs s) = default (newTodo s) (last (typed evs))
  ∧ addTodo_calls (input_run evs TodoInput_mount) = 0.
Proof.
  assert (H : ∀ s0 : TodoInputState,
             addTodo_calls (input_run evs s0) = addTodo_calls s0
             ∧ newTodo (input_run evs s0) = default (newTodo s0) (last (typed evs))).
  { induction evs as [| e evs IH]; intros s0; [split; reflexivity |].
    cbn [input_run]. destruct e as [text | |]; cbn [input_step typed].
    - destruct (IH (setNewTodo text s0)) as [Hc Hn]. split; [exact Hc |].
      rewrite Hn. cbn [setNewTodo newTodo].
      destruct (typed evs) as [| t ts] eqn:Et; [reflexivity |].
      rewrite last_cons_cons. destruct (last (t :: ts)) eqn:El; [reflexivity |].
      apply last_None in El. discriminate El.
    - apply IH.
    - destruct (negb (truthy (trim (newTodo s0)))); apply IH. }
  destruct (H s) as [Hc Hn]. split; [exact Hc |]. split; [exact Hn |].
  apply (H TodoInput_mount).
Qed.

(** ** The provider between start-up and restart *)

Lemma run_toggles (evs : list Event) :
  ∀ w : World,
    forallb is_toggle evs = true →
    ∃ (w' : World) (bs : list bool),
      run evs w = Some w'
      ∧ inflight w' = inflight w ++ map write_of bs
      ∧ storage w' = storage w
      ∧ List.length bs = List.length evs
      ∧ state w' = default (state w) (last bs).
Proof.
  induction evs as [| e evs IH]; intros w Ht.
  - exists w, []. cbn. rewrite app_nil_r. auto.
  - cbn in Ht. apply andb_true_iff in Ht as [He Ht].
    assert (Hstep : ∃ c : bool, step e w = Some (toggleDarkMode c w)).
    { destruct e as [| c | ok]; [exists (state w) | exists c | discriminate He]; reflexivity. }
    destruct Hstep as [c Hstep].
    destruct (IH (toggleDarkMode c w) Ht) as (w' & bs & Hrun & Hq & Hdisk & Hlen & Hst).
    exists w', (negb c :: bs). cbn [run]. rewrite Hstep.
    split; [exact Hrun |]. split; [| split; [exact Hdisk |]].
    + rewrite Hq. cbn. rewrite <- app_assoc. reflexivity.
    + split; [cbn; rewrite Hlen; reflexivity |].
      rewrite Hst. cbn [toggleDarkMode AsyncStorage_setItem setIsDarkMode state].
      destruct bs as [| b bs]; [reflexivity |].
      rewrite last_cons_cons. destruct (last (b :: bs)) eqn:El; [reflexivity |].
      apply last_None in El. discriminate El.
Qed.

Lemma settles_snoc (n : nat) :
  map Settle (replicate (S n) true) = map Settle (replicate n true) ++ [Settle true].
Proof.
  induction n as [| n IH]; [reflexivity |].
  cbn [replicate map app] in *. f_equal. exact IH.
Qed.

Lemma write_of_is_write (bs : list bool) : forallb is_write (map write_of bs) = true.
Proof. induction bs as [| b bs IH]; [reflexivity | exact IH]. Qed.

(** X4. Toggles made before the start-up read has settled are overridden:
    when the read resolves to a stored boolean, the flag becomes that
    boolean whatever the toggles had set. Their writes stay in flight, and
    once they have succeeded the storage holds the mode of the last
    toggle, which the flag no longer shows. *)
Theorem startup_read_overrides_early_toggles
    (disk : gmap string string) (v : string) (b : bool) (evs : list Event) :
  disk !! "darkMode" = Some v →
  JSON_parse v = PBool b →
  forallb is_toggle evs = true →
  ∃ w0 w : World,
    run evs (mount disk) = Some w0
    ∧ run (evs ++ [Settle true]) (mount disk) = Some w
    ∧ state w = b
    ∧ storage w = disk
    ∧ inflight w = tail (inflight w0)
    ∧ List.length (inflight w) = List.length evs
    ∧ (evs ≠ [] →
       ∃ w2 : World,
         run (map Settle (replicate (List.length evs) true)) w = Some w2
         ∧ inflight w2 = []
         ∧ state w2 = b
         ∧ storage w2 !! "darkMode" = Some (JSON_stringify (state w0))).
Proof.
  intros Hv Hb Ht.
  destruct (run_toggles evs (mount disk) Ht) as (w0 & bs & Hrun & Hq & Hdisk & Hlen & Hst).
  cbn in Hq, Hdisk.
  assert (Hsettle : settle true w0
                    = Some (mkWorld b disk (map write_of bs) (unhandled w0))).
  { unfold settle. rewrite Hq, Hdisk, Hv. unfold onStoredValue.
    rewrite (JSON_parse_nonempty v b Hb), Hb. reflexivity. }
  exists w0, (mkWorld b disk (map write_of bs) (unhandled w0)).
  split; [exact Hrun |].
  split; [rewrite run_app, Hrun; cbn; rewrite Hsettle; reflexivity |].
  split; [reflexivity |]. split; [reflexivity |].
  split; [rewrite Hq; reflexivity |].
  split; [cbn; rewrite length_map; exact Hlen |].
  intros Hne. rewrite <- Hlen.
  clear Hsettle. induction bs as [| x bs' _] using rev_ind.
  - destruct evs; [contradiction | discriminate Hlen].
  - rewrite last_snoc in Hst. cbn in Hst.
    rewrite length_app, Nat.add_1_r, settles_snoc.
    destruct (drain_writes (map write_of bs') (replicate (List.length bs') true)
                (mkWorld b disk (map write_of (bs' ++ [x])) (unhandled w0))
                "darkMode" (JSON_stringify x)) as (w2 & Hrun2 & Hst2 & Hval & Hq2).
    + cbn. rewrite map_app. reflexivity.
    + apply write_of_is_write.
    + rewrite length_replicate, length_map. reflexivity.
    + exists w2. rewrite Hst. auto.
Qed.

Lemma settle_write_queue (ok : bool) (w : World) :
  forallb is_write (inflight w) = true →
  ∃ w' : World,
    settle ok w = Some w'
    ∧ state w' = state w
    ∧ inflight w' = tail (inflight w)
    ∧ forallb is_write (inflight w') = true.
Proof.
  intros Hq. unfold settle. destruct (inflight w) as [| op rest] eqn:Eq.
  - exists w. rewrite Eq. auto.
  - cbn in Hq. apply andb_true_iff in Hq as [Hop Hrest].
    destruct op as [key | key value]; [discriminate Hop |].
    destruct ok; eexists; (split; [reflexivity |]); cbn; auto.
Qed.

Lemma toggle_write_queue (c : bool) (w : World) :
  forallb is_write (inflight w) = true →
  forallb is_write (inflight (toggleDarkMode c w)) = true.
Proof.
  intros Hq. cbn. rewrite forallb_app, Hq. reflexivity.
Qed.

Lemma toggles_decide_flag (evs : list Event) :
  ∀ w u : World,
    state w = state u →
    forallb is_write (inflight w) = true →
    ∃ w' u' : World,
      run evs w = Some w'
      ∧ run (List.filter is_toggle evs) u = Some u'
      ∧ state w' = state u'
      ∧ forallb is_write (inflight w') = true.
Proof.
  induction evs as [| e evs IH]; intros w u Hst Hq.
  - exists w, u. auto.
  - destruct e as [| c | ok]; cbn [List.filter is_toggle run step].
    + cbn [ThemeProvider ThemeContextType.toggleDarkMode]. rewrite Hst.
      apply IH; [reflexivity | apply toggle_write_queue, Hq].
    + apply IH; [reflexivity | apply toggle_write_queue, Hq].
    + destruct (settle_write_queue ok w Hq) as (w1 & Hs & Hst1 & _ & Hq1).
      rewrite Hs. apply IH; [congruence | exact Hq1].
Qed.

(** X5. Once the start-up read has settled (only writes are in flight),
    the flag depends on the toggles alone: whether, when and in what order
    the writes succeed or fail, and what the storage holds, makes no
    difference to it; a trace without toggles leaves the published value
    as it was. *)
Theorem flag_follows_toggles_alone (w : World) (evs : list Event) :
  forallb is_write (inflight w) = true →
  ∃ w' u' : World,
    run evs w = Some w'
    ∧ run (List.filter is_toggle evs) (mkWorld (state w) ∅ [] 0) = Some u'
    ∧ state w' = state u'
    ∧ ThemeProvider w' = ThemeProvider u'
    ∧ (List.filter is_toggle evs = [] → ThemeProvider w' = ThemeProvider w).
Proof.
  intros Hq.
  destruct (toggles_decide_flag evs w (mkWorld (state w) ∅ [] 0) eq_refl Hq)
    as (w' & u' & Hrun & Hrun' & Hst & _).
  exists w', u'. split; [exact Hrun |]. split; [exact Hrun' |]. split; [exact Hst |].
  split; [unfold ThemeProvider; rewrite Hst; reflexivity |].
  intros Hnone. rewrite Hnone in Hrun'. injection Hrun' as <-.
  unfold ThemeProvider. rewrite Hst. reflexivity.
Qed.

Lemma key_write_last (q : list StorageOp) (op : StorageOp) :
  forallb is_key_write q = true → last q = Some op →
  ∃ value : string, op = SetItem "darkMode" value.
Proof.
  intros Hq Hl. apply last_Some in Hl as [q' ->].
  rewrite forallb_app in Hq. apply andb_true_iff in Hq as [_ Hop].
  cbn in Hop. rewrite andb_true_r in Hop.
  destruct op as [key | key value]; [discriminate Hop |].
  unfold is_key_write in Hop. cbn in Hop.
  apply andb_true_iff in Hop as [Hk _]. apply String.eqb_eq in Hk. subst key.
  exists value. reflexivity.
Qed.

Lemma pending_toggle (c : bool) (w : World) :
  forallb is_key_write (inflight w) = true →
  forallb is_key_write (inflight (toggleDarkMode c w)) = true
  ∧ pending_value (toggleDarkMode c w)
    = Some (JSON_stringify (state (toggleDarkMode c w))).
Proof.
  intros Hq. split.
  - cbn. rewrite forallb_app, Hq. destruct c; reflexivity.
  - unfold pending_value. cbn. rewrite last_snoc. reflexivity.
Qed.

Lemma pending_settle (w : World) :
  forallb is_key_write (inflight w) = true →
  ∃ w' : World,
    settle true w = Some w'
    ∧ forallb is_key_write (inflight w') = true
    ∧ state w' = state w
    ∧ pending_value w' = pending_value w.
Proof.
  intros Hq. unfold settle, pending_value.
  destruct (inflight w) as [| op rest] eqn:Eq.
  - exists w. rewrite Eq. auto.
  - destruct (key_write_last [op] op) as [value ->];
      [cbn in Hq |- *; apply andb_true_iff in Hq as [-> _]; reflexivity | reflexivity |].
    cbn in Hq. apply andb_true_iff in Hq as [_ Hrest].
    eexists. split; [reflexivity |]. cbn [inflight storage state].
    split; [exact Hrest |]. split; [reflexivity |].
    destruct rest as [| op' rest'].
    + cbn. apply lookup_insert_eq.
    + rewrite last_cons_cons.
      destruct (last (op' :: rest')) as [opl |] eqn:El.
      * destruct (key_write_last _ _ Hrest El) as [v' ->]. reflexivity.
      * apply last_None in El. discriminate El.
Qed.

Lemma pending_run (evs : list Event) :
  ∀ (t : bool) (w : World),
    forallb succeeding evs = true →
    forallb is_key_write (inflight w) = true →
    (t = true → pending_value w = Some (JSON_stringify (state w))) →
    ∃ w' : World,
      run evs w = Some w'
      ∧ forallb is_key_write (inflight w') = true
      ∧ (t || existsb is_toggle evs = true →
         pending_value w' = Some (JSON_stringify (state w'))).
Proof.
  induction evs as [| e evs IH]; intros t w Hs Hq Hp.
  - exists w. cbn. rewrite orb_false_r. auto.
  - cbn in Hs. apply andb_true_iff in Hs as [He Hs].
    assert (Htoggle : ∀ c : bool,
               ∃ w' : World,
                 run evs (toggleDarkMode c w) = Some w'
                 ∧ forallb is_key_write (inflight w') = true
                 ∧ pending_value w' = Some (JSON_stringify (state w'))).
    { intros c. destruct (pending_toggle c w Hq) as [Hq1 Hp1].
      destruct (IH true _ Hs Hq1 (λ _, Hp1)) as (w' & Hrun & Hq' & Hp').
      exists w'. auto. }
    destruct e as [| c | ok]; cbn [run step existsb is_toggle].
    + destruct (Htoggle (state w)) as (w' & Hrun & Hq' & Hp').
      exists w'. auto.
    + destruct (Htoggle c) as (w' & Hrun & Hq' & Hp').
      exists w'. auto.
    + cbn in He. subst ok.
      destruct (pending_settle w Hq) as (w1 & Hs1 & Hq1 & Hst1 & Hp1).
      rewrite Hs1. cbn [orb].
      apply (IH t w1 Hs Hq1). intros Ht. rewrite Hp1, Hst1. apply Hp, Ht.
Qed.

(** X6. When the start-up read has settled and every write succeeds, flag
    and storage converge, also under calls through stale closures: after
    any trace with at least one toggle, the last write in flight carries
    the flag, and once nothing is in flight the storage holds the
    serialized flag. *)
Theorem storage_converges_to_flag (w : World) (evs : list Event) :
  forallb is_key_write (inflight w) = true →
  forallb succeeding evs = true →
  existsb is_toggle evs = true →
  ∃ w' : World,
    run evs w = Some w'
    ∧ pending_value w' = Some (JSON_stringify (state w'))
    ∧ (inflight w' = [] →
       storage w' !! "darkMode" = Some (JSON_stringify (state w'))
       ∧ settle true (mount (storage w')) = Some (mkWorld (state w') (storage w') [] 0)).
Proof.
  intros Hq Hs Ht.
  destruct (pending_run evs false w Hs Hq) as (w' & Hrun & _ & Hp); [discriminate |].
  specialize (Hp Ht).
  exists w'. split; [exact Hrun |]. split; [exact Hp |].
  intros Hempty. unfold pending_value in Hp. rewrite Hempty in Hp. cbn in Hp.
  split; [exact Hp |].
  rewrite settle_mount_read, Hp. unfold onStoredValue.
  rewrite JSON_parse_stringify. destruct (state w'); reflexivity.
Qed.

(** X7. What the start-up read can do: it never changes the storage and
    leaves nothing in flight; the provider comes out of it dark exactly
    when the read succeeded and the stored text is JSON for a truthy value
    ([true], but also a number other than zero, a string that is not
    empty, an array, an object); and a rejected promise is left behind
    exactly when the read failed or the stored text is not empty and is no
    JSON. An empty stored text counts as no preference. *)
Theorem starts_dark_iff_stored_truthy (disk : gmap string string) (ok : bool) :
  ∃ w : World,
    settle ok (mount disk) = Some w
    ∧ storage w = disk
    ∧ inflight w = []
    ∧ (state w = true ↔
       ok = true
       ∧ ∃ v : string,
           disk !! "darkMode" = Some v
           ∧ (JSON_parse v = PBool true ∨ JSON_parse v = POther true))
    ∧ (unhandled w = 1 ↔
       ok = false
       ∨ ∃ v : string,
           disk !! "darkMode" = Some v ∧ v ≠ "" ∧ JSON_parse v = PSyntaxError)
    ∧ (unhandled w = 0 ∨ unhandled w = 1).
Proof.
  destruct ok.
  - rewrite settle_mount_read. eexists. split; [reflexivity |].
    unfold onStoredValue. destruct (disk !! "darkMode") as [v |] eqn:Ev.
    + destruct v as [| c v].
      * cbn. split; [reflexivity |]. split; [reflexivity |].
        split; [| split; [| left; reflexivity]].
        -- split; [discriminate |].
           intros (_ & v' & Hv' & [Hp | Hp]); injection Hv' as <-; discriminate Hp.
        -- split; [discriminate |].
           intros [H | (v' & Hv' & Hne & _)]; [discriminate H |].
           injection Hv' as <-. contradiction.
      * cbn [nonempty String.eqb negb].
        destruct (JSON_parse (String c v)) as [b | t |] eqn:Ep; cbn.
        -- split; [reflexivity |]. split; [reflexivity |].
           split; [| split; [| left; reflexivity]].
           ++ split.
              ** intros ->. split; [reflexivity |]. exists (String c v). auto.
              ** intros (_ & v' & Hv' & [Hp | Hp]); injection Hv' as <-; congruence.
           ++ split; [discriminate |].
              intros [H | (v' & Hv' & _ & Hp)]; [discriminate H |].
              injection Hv' as <-. congruence.
        -- split; [reflexivity |]. split; [reflexivity |].
           split; [| split; [| left; reflexivity]].
           ++ split.
              ** intros ->. split; [reflexivity |]. exists (String c v). auto.
              ** intros (_ & v' & Hv' & [Hp | Hp]); injection Hv' as <-; congruence.
           ++ split; [discriminate |].
              intros [H | (v' & Hv' & _ & Hp)]; [discriminate H |].
              injection Hv' as <-. congruence.
        -- split; [reflexivity |]. split; [reflexivity |].
           split; [| split; [| right; reflexivity]].
           ++ split; [discriminate |].
              intros (_ & v' & Hv' & [Hp | Hp]); injection Hv' as <-; congruence.
           ++ split; [| reflexivity].
              intros _. right. exists (String c v). split; [reflexivity |].
              split; [discriminate | exact Ep].
    + cbn. split; [reflexivity |]. split; [reflexivity |].
      split; [| split; [| left; reflexivity]].
      * split; [discriminate |]. intros (_ & v' & Hv' & _). discriminate Hv'.
      * split; [discriminate |].
        intros [H | (v' & Hv' & _)]; [discriminate H | discriminate Hv'].
  - eexists. split; [reflexivity |]. cbn.
    split; [reflexivity |]. split; [reflexivity |].
    split; [| split; [| right; reflexivity]].
    + split; [discriminate |]. intros (Hok & _). discriminate Hok.
    + split; [intros _; left; reflexivity | reflexivity].
Qed.

Lemma failing_run (evs : list Event) :
  ∀ w : World,
    forallb is_write (inflight w) = true →
    forallb failing evs = true →
    ∃ w' : World,
      run evs w = Some w'
      ∧ storage w' = storage w
      ∧ forallb is_write (inflight w') = true.
Proof.
  induction evs as [| e evs IH]; intros w Hq Hf.
  - exists w. auto.
  - cbn in Hf. apply andb_true_iff in Hf as [He Hf].
    destruct e as [| c | ok]; cbn [run step].
    + apply (IH _ (toggle_write_queue (state w) w Hq) Hf).
    + apply (IH _ (toggle_write_queue c w Hq) Hf).
    + destruct ok; [discriminate He |].
      unfold settle. destruct (inflight w) as [| op rest] eqn:Eq.
      * apply IH; [rewrite Eq; reflexivity | exact Hf].
      * cbn in Hq. apply andb_true_iff in Hq as [Hop Hrest].
        destruct op as [key | key value]; [discriminate Hop |].
        apply (IH (reject (mkWorld (state w) (storage w) rest (unhandled w))) Hrest Hf).
Qed.

(** X8. Toggles whose writes all fail are lost at the next start: while
    only failing requests settle, the storage keeps its content however
    many toggles are made, so a provider mounted over it afterwards reads
    what one mounted before the toggles would have read. *)
Theorem failed_writes_lost_on_restart (w : World) (evs : list Event) :
  forallb is_write (inflight w) = true →
  forallb failing evs = true →
  ∃ w' : World,
    run evs w = Some w'
    ∧ storage w' = storage w
    ∧ settle true (mount (storage w')) = settle true (mount (storage w))
    ∧ (∀ n : nat,
         evs = replicate n Press ++ replicate n (Settle false) →
         state w' = xorb (state w) (Nat.odd n)).
Proof.
  intros Hq Hf.
  destruct (failing_run evs w Hq Hf) as (w' & Hrun & Hdisk & _).
  exists w'. split; [exact Hrun |]. split; [exact Hdisk |].
  split; [rewrite Hdisk; reflexivity |].
  intros n ->. rewrite run_app in Hrun.
  assert (Hpress : ∀ (m : nat) (u : World),
             ∃ u' : World,
               run (replicate m Press) u = Some u'
               ∧ state u' = xorb (state u) (Nat.odd m)
               ∧ (forallb is_write (inflight u) = true →
                  forallb is_write (inflight u') = true)).
  { induction m as [| m IHm]; intros u.
    - exists u. cbn. rewrite xorb_false_r. auto.
    - cbn [replicate run step].
      destruct (IHm (ThemeContextType.toggleDarkMode (ThemeProvider u) u))
        as (u' & Hr & Hs & Hw).
      exists u'. split; [exact Hr |]. split.
      + rewrite Hs, odd_succ_negb. cbn. destruct (state u), (Nat.odd m); reflexivity.
      + intros Hu. apply Hw, (toggle_write_queue (state u) u Hu). }
  destruct (Hpress n w) as (u' & Hr & Hs & Hw). rewrite Hr in Hrun. cbn in Hrun.
  specialize (Hw Hq). clear Hr Hpress Hf.
  assert (Hfail : ∀ (m : nat) (u v : World),
             forallb is_write (inflight u) = true →
             run (replicate m (Settle false)) u = Some v → state v = state u).
  { induction m as [| m IHm]; intros u v Hu Hv.
    - cbn in Hv. injection Hv as <-. reflexivity.
    - cbn [replicate run step] in Hv.
      destruct (settle_write_queue false u Hu) as (u1 & Hs1 & Hst1 & _ & Hq1).
      rewrite Hs1 in Hv. rewrite <- Hst1. apply (IHm u1 v Hq1 Hv). }
  rewrite (Hfail n u' w' Hw Hrun). exact Hs.
Qed.

(** ** Instances of the further properties *)

(** A dark provider, styles and a mutation that are there, the text "a":
    the element has the dark placeholder colour and the primary gradient. *)
Lemma TodoInput_needs_provider_witness :
  ∃ view : TodoInputView.t,
    TodoInput (mkTodoInputEnv unit (λ _, Return tt) unit (Return tt))
      (children_scope (mkWorld true ∅ [] 0) []) (mkTodoInput [97%N] 0)
    = Return view
    ∧ TodoInputView.value view = [97%N]
    ∧ TodoInputView.placeholderTextColor view = Some (Atom (Str "#94a3b8"))
    ∧ TodoInputView.gradient view
      = Some (if TodoInputView.disabled view
              then Pair "#374151" "#4b5563"
              else Pair "#3b82f6" "#1d4ed8")
    ∧ TodoInputView.children view = [gradient_text].
Proof.
  exact (proj2 (proj2 (proj2
    (TodoInput_needs_provider (mkTodoInputEnv unit (λ _, Return tt) unit (Return tt))
       (mkTodoInput [97%N] 0))
    (mkWorld true ∅ [] 0) [])) tt tt eq_refl eq_refl).
Defined.

(** The text of two spaces under a dark provider, with styles and a
    mutation that are there: the button is disabled. *)
Lemma add_button_disabled_iff_blank_witness :
  TodoInputView.disabled
    (TodoInputView.mk [32%N; 32%N] (Some (Atom (Str "#94a3b8"))) true
       (Some (Pair "#374151" "#4b5563")) [Some "addButton"; Some "addButtonDisabled"]
       [gradient_text])
  = true.
Proof.
  exact (proj1 (add_button_disabled_iff_blank
                  (mkTodoInputEnv unit (λ _, Return tt) unit (Return tt))
                  (children_scope (mkWorld true ∅ [] 0) []) (mkTodoInput [32%N; 32%N] 0)
                  _ eq_refl)).
Defined.

(** Light is stored, the user toggles before the read settles: the flag
    ends light, the storage dark. *)
Lemma startup_read_overrides_early_toggles_witness :
  ∃ w0 w : World,
    run [Press] (mount {["darkMode" := "false"]}) = Some w0
    ∧ run [Press; Settle true] (mount {["darkMode" := "false"]}) = Some w
    ∧ state w = false
    ∧ storage w = {["darkMode" := "false"]}
    ∧ inflight w = tail (inflight w0)
    ∧ List.length (inflight w) = 1
    ∧ ([Press] ≠ [] →
       ∃ w2 : World,
         run [Settle true] w = Some w2
         ∧ inflight w2 = []
         ∧ state w2 = false
         ∧ storage w2 !! "darkMode" = Some (JSON_stringify (state w0))).
Proof.
  exact (startup_read_overrides_early_toggles {["darkMode" := "false"]} "false" false
           [Press] (lookup_singleton_eq "darkMode" "false") eq_refl eq_refl).
Defined.

(** A write fails, a toggle, a write succeeds: one toggle decides. *)
Lemma flag_follows_toggles_alone_witness :
  ∃ w' u' : World,
    run [Press; Settle false; Press; Press; Settle true] (mkWorld false ∅ [] 0) = Some w'
    ∧ run [Press; Press; Press] (mkWorld false ∅ [] 0) = Some u'
    ∧ state w' = state u'
    ∧ ThemeProvider w' = ThemeProvider u'
    ∧ ([Press; Press; Press] = [] → ThemeProvider w' = ThemeProvider (mkWorld false ∅ [] 0)).
Proof.
  exact (flag_follows_toggles_alone (mkWorld false ∅ [] 0)
           [Press; Settle false; Press; Press; Settle true] eq_refl).
Defined.

(** Two calls through one closure, then both writes succeed. *)
Lemma storage_converges_to_flag_witness :
  ∃ w' : World,
    run [Invoke false; Invoke false; Settle true; Settle true] (mkWorld false ∅ [] 0)
    = Some w'
    ∧ pending_value w' = Some (JSON_stringify (state w'))
    ∧ (inflight w' = [] →
       storage w' !! "darkMode" = Some (JSON_stringify (state w'))
       ∧ settle true (mount (storage w')) = Some (mkWorld (state w') (storage w') [] 0)).
Proof.
  exact (storage_converges_to_flag (mkWorld false ∅ [] 0)
           [Invoke false; Invoke false; Settle true; Settle true] eq_refl eq_refl eq_refl).
Defined.

(** Three toggles, three failed writes over a storage that holds light. *)
Lemma failed_writes_lost_on_restart_witness :
  ∃ w' : World,
    run (replicate 3 Press ++ replicate 3 (Settle false))
      (mkWorld false {["darkMode" := "false"]} [] 0)
    = Some w'
    ∧ storage w' = {["darkMode" := "false"]}
    ∧ settle true (mount (storage w')) = settle true (mount {["darkMode" := "false"]})
    ∧ (∀ n : nat,
         replicate 3 Press ++ replicate 3 (Settle false)
         = replicate n Press ++ replicate n (Settle false) →
         state w' = xorb false (Nat.odd n)).
Proof.
  exact (failed_writes_lost_on_restart (mkWorld false {["darkMode" := "false"]} [] 0)
           (replicate 3 Press ++ replicate 3 (Settle false)) eq_refl eq_refl).
Defined.
